(** * Markdown Blogger: the filename transform, the destination validator,
      the folder list and the push operation of [src/main.ts]

    The plugin copies one vault document to a folder on disk, optionally
    renaming it to Jekyll's [YYYY-MM-DD-title.md] convention.  This file
    embeds the TypeScript of [src/main.ts] in Rocq and proves properties of it.

    Layout: Part I embeds the JavaScript and Node.js built-ins the plugin
    calls ([String.prototype.replace], [split], [trim], [Date.prototype.
    toISOString], [path.parse], [fs.existsSync], [fs.writeFileSync]); Part II
    embeds the plugin itself; Part III holds the reference definitions the
    properties are stated against; Part IV holds the lemmas and theorems. *)

From Stdlib Require Import ZArith NArith List Lia Bool.
From Stdlib Require Import Strings.String Strings.Ascii.
From stdpp Require Import base option list gmap.

Local Open Scope Z_scope.

(* ================================================================== *)
(** * Part I: the built-ins                                            *)
(* ================================================================== *)

(** ** JavaScript strings

    A JavaScript string is a sequence of UTF-16 code units; the regular
    expressions of [main.ts] carry no [u] flag, so they see code units. *)

Definition code_unit := N.
Definition jsstring := list code_unit.

(** [js "abc"]: the JavaScript string of an ASCII literal. *)
Fixpoint js (s : string) : jsstring :=
  match s with
  | EmptyString => []
  | String a rest => N_of_ascii a :: js rest
  end.

Module JS.

Definition CHAR_HASH : code_unit := 35%N.
Definition CHAR_PLUS : code_unit := 43%N.
Definition CHAR_HYPHEN : code_unit := 45%N.
Definition CHAR_ZERO : code_unit := 48%N.
Definition CHAR_COLON : code_unit := 58%N.
Definition CHAR_QUESTION : code_unit := 63%N.
Definition CHAR_SPACE : code_unit := 32%N.

(** The class [\s]: ECMAScript's WhiteSpace and LineTerminator code points
    (TAB, LF, VT, FF, CR, SP, NBSP, U+1680, U+2000..U+200A, LS, PS, U+202F,
    U+205F, U+3000 and the byte order mark U+FEFF).  [String.prototype.trim]
    strips the same set. *)
Definition is_whitespace (c : code_unit) : bool :=
  ((9 <=? c) && (c <=? 13) || (c =? 32) || (c =? 160) || (c =? 5760)
   || (8192 <=? c) && (c <=? 8202) || (c =? 8232) || (c =? 8233)
   || (c =? 8239) || (c =? 8287) || (c =? 12288) || (c =? 65279))%N.

(** The class [[#?]]. *)
Definition is_hash_or_question (c : code_unit) : bool :=
  ((c =? CHAR_HASH) || (c =? CHAR_QUESTION))%N.

(** The two shapes of pattern [main.ts] uses: one code unit of a class
    ([/[#?]/]) and a greedy non-empty run of a class ([/\s+/]). *)
Inductive regex :=
| Class (p : code_unit -> bool)
| Plus (p : code_unit -> bool).

(** Length of the longest prefix of [s] whose code units are all in [p]. *)
Fixpoint run_length (p : code_unit -> bool) (s : jsstring) : nat :=
  match s with
  | c :: rest => if p c then S (run_length p rest) else O
  | [] => O
  end.

(** The match of [r] anchored at the start of [s]: its length, if any.
    Neither shape matches the empty string. *)
Definition match_at (r : regex) (s : jsstring) : option nat :=
  match r, s with
  | Class p, c :: _ => if p c then Some 1%nat else None
  | Plus p, c :: _ => if p c then Some (run_length p s) else None
  | _, [] => None
  end.

(** [s.replace(/r/g, rep)] for a replacement text without [$]: scan left to
    right; at a position where [r] matches, emit [rep] and resume after the
    match, otherwise copy one code unit.  [fuel] bounds the number of
    positions visited; [length s] is enough. *)
Fixpoint replace_from (r : regex) (rep : jsstring) (fuel : nat) (s : jsstring)
  : jsstring :=
  match fuel with
  | O => s
  | S fuel' =>
      match s with
      | [] => []
      | c :: rest =>
          match match_at r s with
          | Some (S n) => rep ++ replace_from r rep fuel' (drop n rest)
          | _ => c :: replace_from r rep fuel' rest
          end
      end
  end.

Definition replace_all (r : regex) (rep : jsstring) (s : jsstring) : jsstring :=
  replace_from r rep (length s) s.

(** [s.split(sep)] for a separator of one code unit; the result is never
    the empty array. *)
Fixpoint split (sep : code_unit) (s : jsstring) : list jsstring :=
  match s with
  | [] => [[]]
  | c :: rest =>
      if (c =? sep)%N then [] :: split sep rest
      else match split sep rest with
           | piece :: pieces => (c :: piece) :: pieces
           | [] => [[c]]
           end
  end.

(** [s.trim()]. *)
Fixpoint trim_start (s : jsstring) : jsstring :=
  match s with
  | c :: rest => if is_whitespace c then trim_start rest else s
  | [] => []
  end.

Definition trim (s : jsstring) : jsstring :=
  rev (trim_start (rev (trim_start s))).

(** [s.slice(from, to)] for indices that are not negative. *)
Definition slice (s : jsstring) (from to : Z) : jsstring :=
  take (Z.to_nat (to - from)) (drop (Z.to_nat from) s).

(** [s.charCodeAt(i)] for an index inside the string. *)
Definition charCodeAt (s : jsstring) (i : Z) : code_unit :=
  nth (Z.to_nat i) s 0%N.

(** Decimal digits of a natural number, most significant first. *)
Fixpoint digits_of (fuel : nat) (n : N) : jsstring :=
  match fuel with
  | O => []
  | S fuel' =>
      if (n <? 10)%N then [(CHAR_ZERO + n)%N]
      else digits_of fuel' (n / 10)%N ++ [(CHAR_ZERO + n mod 10)%N]
  end.

(** [Number::toString] of a non-negative integer: a number has no more
    decimal digits than binary ones. *)
Definition decimal (n : N) : jsstring :=
  digits_of (S (N.to_nat (N.log2 n))) n.

(** [StringPad(s, minLength, "0", start)]. *)
Definition pad_start_zero (minLength : nat) (s : jsstring) : jsstring :=
  repeat CHAR_ZERO (minLength - length s) ++ s.

(** [ToZeroPaddedDecimalString(n, minLength)]. *)
Definition ToZeroPaddedDecimalString (n : Z) (minLength : nat) : jsstring :=
  pad_start_zero minLength (decimal (Z.to_N n)).

End JS.


(** ** Dates: ECMAScript's time values and [Date.prototype.toISOString]

    A [Date] holds a time value: milliseconds since 1970-01-01T00:00:00Z.
    [new Date()] holds the clock's reading, an input of the model. *)

Module JSDate.

Definition time_value := Z.

Definition msPerDay : Z := 86400000.
Definition msPerHour : Z := 3600000.
Definition msPerMinute : Z := 60000.
Definition msPerSecond : Z := 1000.

Definition Day (t : time_value) : Z := t / msPerDay.
Definition TimeWithinDay (t : time_value) : Z := t mod msPerDay.

(** The number of the first day of year [y]. *)
Definition DayFromYear (y : Z) : Z :=
  365 * (y - 1970) + (y - 1969) / 4 - (y - 1901) / 100 + (y - 1601) / 400.

Definition TimeFromYear (y : Z) : Z := msPerDay * DayFromYear y.

Definition DaysInYear (y : Z) : Z :=
  if negb (y mod 4 =? 0) then 365
  else if negb (y mod 100 =? 0) then 366
  else if negb (y mod 400 =? 0) then 365
  else 366.

(** ECMAScript: the largest [y] with [TimeFromYear y <= t].  Computed from
    the mean length of a Gregorian year (146097 days in 400 years), which
    lands within one year of the answer ([YearFromTime_spec] below). *)
Definition YearFromTime (t : time_value) : Z :=
  let d := Day t in
  let guess := 1970 + (d * 400) / 146097 in
  if DayFromYear (guess + 1) <=? d then guess + 1
  else if DayFromYear guess <=? d then guess
  else guess - 1.

Definition InLeapYear (t : time_value) : Z :=
  if DaysInYear (YearFromTime t) =? 366 then 1 else 0.

Definition DayWithinYear (t : time_value) : Z :=
  Day t - DayFromYear (YearFromTime t).

(** Month number, 0 (January) to 11 (December). *)
Definition MonthFromTime (t : time_value) : Z :=
  let d := DayWithinYear t in
  let leap := InLeapYear t in
  if d <? 31 then 0
  else if d <? 59 + leap then 1
  else if d <? 90 + leap then 2
  else if d <? 120 + leap then 3
  else if d <? 151 + leap then 4
  else if d <? 181 + leap then 5
  else if d <? 212 + leap then 6
  else if d <? 243 + leap then 7
  else if d <? 273 + leap then 8
  else if d <? 304 + leap then 9
  else if d <? 334 + leap then 10
  else 11.

(** Day of the month, from 1. *)
Definition DateFromTime (t : time_value) : Z :=
  let d := DayWithinYear t in
  let leap := InLeapYear t in
  match MonthFromTime t with
  | 0 => d + 1
  | 1 => d - 30
  | 2 => d - 58 - leap
  | 3 => d - 89 - leap
  | 4 => d - 119 - leap
  | 5 => d - 150 - leap
  | 6 => d - 180 - leap
  | 7 => d - 211 - leap
  | 8 => d - 242 - leap
  | 9 => d - 272 - leap
  | 10 => d - 303 - leap
  | _ => d - 333 - leap
  end.

Definition HourFromTime (t : time_value) : Z := (t / msPerHour) mod 24.
Definition MinFromTime (t : time_value) : Z := (t / msPerMinute) mod 60.
Definition SecFromTime (t : time_value) : Z := (t / msPerSecond) mod 60.
Definition msFromTime (t : time_value) : Z := t mod msPerSecond.

(** The year of an ISO-8601 timestamp: four digits for the years 0 to 9999,
    otherwise the expanded form, a sign and six digits. *)
Definition iso_year (y : Z) : jsstring :=
  if (0 <=? y) && (y <=? 9999) then JS.ToZeroPaddedDecimalString y 4
  else (if 0 <? y then JS.CHAR_PLUS else JS.CHAR_HYPHEN)
         :: JS.ToZeroPaddedDecimalString (Z.abs y) 6.

(** [Date.prototype.toISOString]:
    [YYYY-MM-DDTHH:mm:ss.sssZ], or [(+|-)YYYYYY-MM-DDTHH:mm:ss.sssZ]. *)
Definition toISOString (t : time_value) : jsstring :=
  iso_year (YearFromTime t)
    ++ js "-" ++ JS.ToZeroPaddedDecimalString (MonthFromTime t + 1) 2
    ++ js "-" ++ JS.ToZeroPaddedDecimalString (DateFromTime t) 2
    ++ js "T" ++ JS.ToZeroPaddedDecimalString (HourFromTime t) 2
    ++ js ":" ++ JS.ToZeroPaddedDecimalString (MinFromTime t) 2
    ++ js ":" ++ JS.ToZeroPaddedDecimalString (SecFromTime t) 2
    ++ js "." ++ JS.ToZeroPaddedDecimalString (msFromTime t) 3
    ++ js "Z".

End JSDate.

(** ** Node.js [path.parse] (POSIX flavour)

    [path.parse(p)] scans [p] from its last code unit backwards, skipping
    trailing slashes, and records where the last component starts and ends
    and where its last dot stands.  On a file name (no separator, no drive
    prefix) the Windows flavour runs the same scan. *)

Module Path.

Definition CHAR_DOT : code_unit := 46%N.
Definition CHAR_FORWARD_SLASH : code_unit := 47%N.

Record ParsedPath := {
  root : jsstring;
  dir : jsstring;
  base : jsstring;
  ext : jsstring;
  name : jsstring
}.

(** The loop's variables ([-1] stands for "not seen yet", as in Node). *)
Record scan := {
  startDot : Z;
  startPart : Z;
  end_ : Z;
  matchedSlash : bool;
  preDotState : Z
}.

(** One iteration of the loop at index [i]: the new variables, and whether
    the loop stops ([break]). *)
Definition scan_step (path : jsstring) (i : Z) (st : scan) : scan * bool :=
  let code := JS.charCodeAt path i in
  if (code =? CHAR_FORWARD_SLASH)%N then
    if negb (matchedSlash st) then
      ({| startDot := startDot st; startPart := i + 1; end_ := end_ st;
          matchedSlash := matchedSlash st; preDotState := preDotState st |},
       true)
    else (st, false)
  else
    let st1 :=
      if end_ st =? -1 then
        {| startDot := startDot st; startPart := startPart st; end_ := i + 1;
           matchedSlash := false; preDotState := preDotState st |}
      else st in
    let st2 :=
      if (code =? CHAR_DOT)%N then
        if startDot st1 =? -1 then
          {| startDot := i; startPart := startPart st1; end_ := end_ st1;
             matchedSlash := matchedSlash st1; preDotState := preDotState st1 |}
        else if negb (preDotState st1 =? 1) then
          {| startDot := startDot st1; startPart := startPart st1;
             end_ := end_ st1; matchedSlash := matchedSlash st1;
             preDotState := 1 |}
        else st1
      else if negb (startDot st1 =? -1) then
        {| startDot := startDot st1; startPart := startPart st1;
           end_ := end_ st1; matchedSlash := matchedSlash st1;
           preDotState := -1 |}
      else st1 in
    (st2, false).

(** [for (; i >= start; --i)] entered with [i = start + n - 1]. *)
Fixpoint scan_loop (path : jsstring) (start : Z) (n : nat) (st : scan) : scan :=
  match n with
  | O => st
  | S n' =>
      let '(st', stop) := scan_step path (start + Z.of_nat n') st in
      if stop then st' else scan_loop path start n' st'
  end.

Definition parse (path : jsstring) : ParsedPath :=
  let empty := {| root := []; dir := []; base := []; ext := []; name := [] |} in
  match path with
  | [] => empty
  | first :: _ =>
      let len := Z.of_nat (length path) in
      let isAbsolute := (first =? CHAR_FORWARD_SLASH)%N in
      let start := if isAbsolute then 1 else 0 in
      let st := scan_loop path start (Z.to_nat (len - start))
                  {| startDot := -1; startPart := 0; end_ := -1;
                     matchedSlash := true; preDotState := 0 |} in
      let from := if (startPart st =? 0) && isAbsolute then 1 else startPart st in
      let whole :=
        (startDot st =? -1) || (preDotState st =? 0)
        || ((preDotState st =? 1) && (startDot st =? end_ st - 1)
            && (startDot st =? startPart st + 1)) in
      {| root := if isAbsolute then [CHAR_FORWARD_SLASH] else [];
         dir := if 0 <? startPart st then JS.slice path 0 (startPart st - 1)
                else if isAbsolute then [CHAR_FORWARD_SLASH] else [];
         base := if end_ st =? -1 then [] else JS.slice path from (end_ st);
         ext := if (end_ st =? -1) || whole then []
                else JS.slice path (startDot st) (end_ st);
         name := if end_ st =? -1 then []
                 else if whole then JS.slice path from (end_ st)
                 else JS.slice path from (startDot st) |}
  end.

End Path.

(** ** The host: file system, vault, clock and user interface

    [fs.existsSync], [fs.writeFileSync], [app.vault.read], [new Date()],
    [new Notice(..)], [console.log] and the plugin's [ErrorModal] act on
    the world below.  A computation runs in a world and yields a value or a
    thrown error, the world it leaves, and the events it caused, in order. *)

(** A thrown JavaScript [Error]; handlers read its [message]. *)
Record Error := { message : jsstring }.

(** An Obsidian [TFile]; [name] is its last path segment, extension
    included. *)
Record TFile := { path : jsstring; name : jsstring }.

Inductive event :=
| ConsoleLog (text : jsstring)
| Notice (text : jsstring)
| ErrorModalOpen (text : jsstring)
| VaultRead (file : TFile)
| FileWrite (filePath : jsstring) (data : jsstring).

Record World := {
  files : gmap jsstring jsstring;
  directories : gset jsstring;
  vault : TFile -> Error + jsstring;
  write_fault : jsstring -> option Error;
  clock : JSDate.time_value
}.

Definition M (A : Type) : Type := World -> (Error + A) * (World * list event).

Definition ret {A} (a : A) : M A := fun w => (inr a, (w, [])).

Definition throw {A} (e : Error) : M A := fun w => (inl e, (w, [])).

Definition bind {A B} (m : M A) (k : A -> M B) : M B :=
  fun w =>
    match m w with
    | (inl e, rest) => (inl e, rest)
    | (inr a, (w1, t1)) =>
        match k a w1 with
        | (r, (w2, t2)) => (r, (w2, t1 ++ t2))
        end
    end.

(** [try { body } catch (error) { handler }]. *)
Definition try_catch {A} (body : M A) (handler : Error -> M A) : M A :=
  fun w =>
    match body w with
    | (inl e, (w1, t1)) =>
        match handler e w1 with
        | (r, (w2, t2)) => (r, (w2, t1 ++ t2))
        end
    | done => done
    end.

Definition emit (ev : event) : M unit := fun w => (inr tt, (w, [ev])).

(** stdpp's notations [x ← m; k] and [m ;; k] for [M]. *)
#[global] Instance M_ret : MRet M := fun A a => ret a.
#[global] Instance M_bind : MBind M := fun A B k m => bind m k.

(** What a computation leaves behind. *)
Definition outcome {A} (r : (Error + A) * (World * list event)) : Error + A := r.1.
Definition world_after {A} (r : (Error + A) * (World * list event)) : World := r.2.1.
Definition events {A} (r : (Error + A) * (World * list event)) : list event := r.2.2.

(** [new Date()]: the clock's reading. *)
Definition new_Date : M JSDate.time_value := fun w => (inr (clock w), (w, [])).

(** [await this.app.vault.read(file)]. *)
Definition vault_read (file : TFile) : M jsstring :=
  fun w => (vault w file, (w, [VaultRead file])).

Definition console_log (text : jsstring) : M unit := emit (ConsoleLog text).
Definition new_Notice (text : jsstring) : M unit := emit (Notice text).

(** [fs.existsSync(p)]: whether a file or a directory stands at [p]; it
    answers [false] for an argument that is no string ([None]: the
    [undefined] an empty array yields at index 0). *)
Definition existsSync (p : option jsstring) : M bool :=
  fun w =>
    (inr match p with
         | Some p => bool_decide (is_Some (files w !! p))
                     || bool_decide (p ∈ directories w)
         | None => false
         end, (w, [])).

(** [fs.writeFileSync(p, data, { encoding: "utf8" })]: no [flag] is given,
    so the file is opened with ["w"], created if it is missing and
    truncated if it is there; it throws when the host refuses the write
    ([write_fault]: no such directory, no permission, ...), which is taken
    to happen before anything reaches the disk. *)
Definition writeFileSync (p : jsstring) (data : jsstring) : M unit :=
  fun w =>
    match write_fault w p with
    | Some e => (inl e, (w, [FileWrite p data]))
    | None =>
        (inr tt,
         ({| files := <[p := data]> (files w); directories := directories w;
             vault := vault w; write_fault := write_fault w;
             clock := clock w |},
          [FileWrite p data]))
    end.

(* ================================================================== *)
(** * Part II: the plugin                                              *)
(* ================================================================== *)

Record MarkdownBloggerSettings := {
  projectFolders : list jsstring;
  showHiddenFolders : bool;
  convertToJekyllFormat : bool
}.

Definition DEFAULT_SETTINGS : MarkdownBloggerSettings :=
  {| projectFolders := [ [] ];
     showHiddenFolders := false;
     convertToJekyllFormat := false |}.

Module FileService.

Definition exists_ (filePath : option jsstring) : M bool := existsSync filePath.

Definition writeFile (filePath : jsstring) (data : jsstring) : M unit :=
  writeFileSync filePath data.

End FileService.

(** ** The settings tab ([MarkdownBloggerSettingTab.display])

    The three handlers that touch [projectFolders]; each is given the list
    and returns the list it leaves.  Saving and redrawing do not change it. *)

Module SettingTab.

(** The text box's [onChange]: [newPath = value.trim().replace(/\s+/g, ' ')]. *)
Definition onNewPathChange (value : jsstring) : jsstring :=
  JS.replace_all (JS.Plus JS.is_whitespace) [JS.CHAR_SPACE] (JS.trim value).

(** [folders.includes(x)]. *)
Definition includes (folders : list jsstring) (x : jsstring) : bool :=
  bool_decide (x ∈ folders).

(** [folders.indexOf(x)], [None] for [-1]. *)
Fixpoint indexOf (folders : list jsstring) (x : jsstring) : option nat :=
  match folders with
  | [] => None
  | y :: rest => if bool_decide (y = x) then Some O
                 else S <$> indexOf rest x
  end.

(** The add button: [if (newPath && !folders.includes(newPath))
    folders.push(newPath)]; a string is truthy when it is not empty. *)
Definition onAddClick (newPath : jsstring) (folders : list jsstring)
  : list jsstring :=
  if negb (bool_decide (newPath = [])) && negb (includes folders newPath)
  then folders ++ [newPath]
  else folders.

(** The delete button: [index = folders.indexOf(folders[0]);
    if (index > -1) folders.splice(index, 1)].  On the empty array
    [folders[0]] is [undefined], which [indexOf] does not find. *)
Definition onDeleteClick (folders : list jsstring) : list jsstring :=
  match folders !! O with
  | None => folders
  | Some first =>
      match indexOf folders first with
      | Some index => delete index folders
      | None => folders
      end
  end.

(** Either dropdown's [onChange]: [folders[0] = value]; an assignment at
    index 0 of an empty array extends it. *)
Definition onDropdownChange (value : jsstring) (folders : list jsstring)
  : list jsstring :=
  match folders with
  | [] => [value]
  | _ :: rest => value :: rest
  end.

End SettingTab.

(** ** The plugin class ([MarkdownBlogger]) *)

Definition MODAL_MESSAGE : jsstring :=
  (* 프로젝트 폴더가 존재하지 않습니다. 경로를 확인하거나 설정을 업데이트하세요. *)
  [54532; 47196; 51229; 53944; 32; 54260; 45908; 44032; 32; 51316;
   51116; 54616; 51648; 32; 50506; 49845; 45768; 45796; 46; 32;
   44221; 47196; 47484; 32; 54869; 51064; 54616; 44144; 45208; 32;
   49444; 51221; 51012; 32; 50629; 45936; 51060; 53944; 54616; 49464;
   50836; 46]%N.

Definition VALID_PATH_PREFIX : jsstring :=
  (* 유효한 경로:  *)
  [50976; 54952; 54620; 32; 44221; 47196; 58; 32]%N.

Definition PUSH_SUCCESS_PREFIX : jsstring :=
  (* 파일이 성공적으로 푸시되었습니다:  *)
  [54028; 51068; 51060; 32; 49457; 44277; 51201; 51004; 47196; 32;
   54392; 49884; 46104; 50632; 49845; 45768; 45796; 58; 32]%N.

Definition PUSH_FAILURE_PREFIX : jsstring :=
  (* 푸시 중 오류 발생:  *)
  [54392; 49884; 32; 51473; 32; 50724; 47448; 32; 48156; 49373;
   58; 32]%N.

(** [new ErrorModal(this.app, message).open()]. *)
Definition open_ErrorModal (text : jsstring) : M unit :=
  emit (ErrorModalOpen text).

(** The text a template literal prints for [projectFolders[0]]. *)
Definition template_text (v : option jsstring) : jsstring :=
  match v with
  | Some s => s
  | None => js "undefined"
  end.

(** The date part of [convertToJekyllFileName]:
    [new Date().toISOString().split('T')[0]], for the clock reading [now]. *)
Definition isoDate (now : JSDate.time_value) : jsstring :=
  nth O (JS.split 84%N (JSDate.toISOString now)) [].

(** The title part: [name.replace(/[#?]/g, '').replace(/\s+/g, '-')]. *)
Definition removeDisallowed (title : jsstring) : jsstring :=
  JS.replace_all (JS.Class JS.is_hash_or_question) [] title.

Definition sanitizeTitle (nameWithoutExtension : jsstring) : jsstring :=
  JS.replace_all (JS.Plus JS.is_whitespace) [JS.CHAR_HYPHEN]
    (removeDisallowed nameWithoutExtension).

(** [convertToJekyllFileName(fileName)], run when the clock reads [now]. *)
Definition convertToJekyllFileName (now : JSDate.time_value)
  (fileName : jsstring) : jsstring :=
  let date := isoDate now in
  let nameWithoutExtension := Path.name (Path.parse fileName) in
  let sanitizedTitle := sanitizeTitle nameWithoutExtension in
  date ++ js "-" ++ sanitizedTitle ++ js ".md".

Section Plugin.

(** Node's [path.resolve(folder, fileName)] on two strings: it depends on
    the process's working directory and stays a parameter. *)
Variable path_resolve : jsstring -> jsstring -> jsstring.

(** What [path.resolve] throws when its first argument is [undefined]. *)
Definition ERR_INVALID_ARG_TYPE : Error :=
  {| message := js "The " ++ [34%N] ++ js "paths[0]" ++ [34%N]
                ++ js " argument must be of type string. Received undefined" |}.

(** [path.resolve(this.settings.projectFolders[0], fileName)]. *)
Definition resolve_in_folder (settings : MarkdownBloggerSettings)
  (fileName : jsstring) : M jsstring :=
  match projectFolders settings !! O with
  | Some folder => mret (path_resolve folder fileName)
  | None => throw ERR_INVALID_ARG_TYPE
  end.

(** [isProjectPathValid()]. *)
Definition isProjectPathValid (settings : MarkdownBloggerSettings) : M bool :=
  found ← FileService.exists_ (projectFolders settings !! O);
  if negb found then
    open_ErrorModal MODAL_MESSAGE;;
    mret false
  else mret true.

(** [pushFile(file, targetPath)]. *)
Definition pushFile (settings : MarkdownBloggerSettings) (file : TFile)
  (targetPath : jsstring) : M unit :=
  console_log targetPath;;
  try_catch
    (fileContent ← vault_read file;
     targetPath ←
       (if convertToJekyllFormat settings then
          now ← new_Date;
          resolve_in_folder settings (convertToJekyllFileName now (name file))
        else mret targetPath);
     FileService.writeFile targetPath fileContent;;
     new_Notice (PUSH_SUCCESS_PREFIX ++ targetPath))
    (fun error => new_Notice (PUSH_FAILURE_PREFIX ++ message error)).

(** The command [validate-path]. *)
Definition validate_path_command (settings : MarkdownBloggerSettings) : M unit :=
  valid ← isProjectPathValid settings;
  if negb valid then mret tt
  else new_Notice
         (VALID_PATH_PREFIX ++ template_text (projectFolders settings !! O)).

(** The command [push-md]; [view_file] is [view.file], which may be null. *)
Definition push_md_command (settings : MarkdownBloggerSettings)
  (view_file : option TFile) : M unit :=
  valid ← isProjectPathValid settings;
  if negb valid then mret tt
  else match view_file with
       | Some file =>
           targetPath ← resolve_in_folder settings (name file);
           pushFile settings file targetPath
       | None => mret tt
       end.

(** The [file-menu] item's [onClick]. *)
Definition file_menu_push (settings : MarkdownBloggerSettings) (file : TFile)
  : M unit :=
  valid ← isProjectPathValid settings;
  if negb valid then mret tt
  else
    targetPath ← resolve_in_folder settings (name file);
    pushFile settings file targetPath.

End Plugin.

(** ** Sequences of configuration actions *)

Inductive config_action :=
| AddPath (typed : jsstring)      (* type into the text box, press the add button *)
| RemovePath                      (* press the delete button *)
| SelectPath (value : jsstring).  (* pick an entry in a dropdown *)

Definition apply_action (a : config_action) (folders : list jsstring)
  : list jsstring :=
  match a with
  | AddPath typed =>
      SettingTab.onAddClick (SettingTab.onNewPathChange typed) folders
  | RemovePath => SettingTab.onDeleteClick folders
  | SelectPath value => SettingTab.onDropdownChange value folders
  end.

(** The list after a sequence of actions, the first action first. *)
Definition run_actions (actions : list config_action) (folders : list jsstring)
  : list jsstring :=
  foldl (fun acc a => apply_action a acc) folders actions.

(** ** Loading and saving the settings *)

(** What [loadData()] resolves to when [data.json] is there: the saved
    object, in which a key may be missing. *)
Record SavedData := {
  saved_projectFolders : option (list jsstring);
  saved_showHiddenFolders : option bool;
  saved_convertToJekyllFormat : option bool
}.

(** [loadSettings()]: [{ ...DEFAULT_SETTINGS, ...(await this.loadData()) }];
    [loadData()] resolves to [null] ([None]) when nothing was saved, and
    spreading [null] adds nothing. *)
Definition loadSettings (data : option SavedData) : MarkdownBloggerSettings :=
  match data with
  | None => DEFAULT_SETTINGS
  | Some d =>
      {| projectFolders :=
           default (projectFolders DEFAULT_SETTINGS) (saved_projectFolders d);
         showHiddenFolders :=
           default (showHiddenFolders DEFAULT_SETTINGS) (saved_showHiddenFolders d);
         convertToJekyllFormat :=
           default (convertToJekyllFormat DEFAULT_SETTINGS)
             (saved_convertToJekyllFormat d) |}
  end.

(** [saveSettings()]: [saveData(this.settings)] stores the three fields. *)
Definition saveSettings (settings : MarkdownBloggerSettings) : option SavedData :=
  Some {| saved_projectFolders := Some (projectFolders settings);
          saved_showHiddenFolders := Some (showHiddenFolders settings);
          saved_convertToJekyllFormat := Some (convertToJekyllFormat settings) |}.

(** The folder lists the settings tab can reach from a list: by the add
    button, by the delete button, and by a dropdown, whose options are the
    entries of the list. *)
Inductive reachable (from : list jsstring) : list jsstring -> Prop :=
| reach_start : reachable from from
| reach_add folders typed :
    reachable from folders ->
    reachable from (apply_action (AddPath typed) folders)
| reach_remove folders :
    reachable from folders ->
    reachable from (apply_action RemovePath folders)
| reach_select folders value :
    reachable from folders -> value ∈ folders ->
    reachable from (apply_action (SelectPath value) folders).

(* ================================================================== *)
(** * Part III: reference definitions                                  *)
(* ================================================================== *)

(** The properties below compare the embedded code with these direct
    descriptions of what it is meant to compute. *)

(** Index of the last dot of a name. *)
Fixpoint last_dot (s : jsstring) : option nat :=
  match s with
  | [] => None
  | c :: rest =>
      match last_dot rest with
      | Some i => Some (S i)
      | None => if (c =? Path.CHAR_DOT)%N then Some O else None
      end
  end.

(** A file name without its extension.  The extension runs from the last
    dot to the end; a name whose only dot is its first character (a
    dot-file) and the name [..] have none. *)
Definition strip_extension (fileName : jsstring) : jsstring :=
  match last_dot fileName with
  | None | Some O => fileName
  | Some i => if bool_decide (fileName = js "..") then fileName
              else take i fileName
  end.

(** A file name holds no path separator. *)
Definition is_file_name (fileName : jsstring) : Prop :=
  Path.CHAR_FORWARD_SLASH ∉ fileName.

(** [s] with every code unit of the class [p] deleted. *)
Fixpoint delete_all (p : code_unit -> bool) (s : jsstring) : jsstring :=
  match s with
  | [] => []
  | c :: rest => if p c then delete_all p rest else c :: delete_all p rest
  end.

(** [s] with every maximal run of code units of the class [p] replaced by
    one copy of [rep]: a unit of a run is dropped while the run goes on, and
    the run's last unit gives way to [rep]. *)
Fixpoint collapse_runs (p : code_unit -> bool) (rep : jsstring) (s : jsstring)
  : jsstring :=
  match s with
  | [] => []
  | c :: rest =>
      if p c then
        match rest with
        | c' :: _ => if p c' then collapse_runs p rep rest
                     else rep ++ collapse_runs p rep rest
        | [] => rep
        end
      else c :: collapse_runs p rep rest
  end.

Definition is_digit (c : code_unit) : bool := ((48 <=? c) && (c <=? 57))%N.

(** The shape [YYYY-MM-DD]: ten code units, digits around two hyphens. *)
Definition is_YYYY_MM_DD (d : jsstring) : bool :=
  match d with
  | [y1; y2; y3; y4; h1; m1; m2; h2; d1; d2] =>
      forallb is_digit [y1; y2; y3; y4; m1; m2; d1; d2]
      && (h1 =? JS.CHAR_HYPHEN)%N && (h2 =? JS.CHAR_HYPHEN)%N
  | _ => false
  end.

(** [YYYY-MM-DD] written from the UTC calendar fields of a time value:
    year, month (from 1) and day of the month, zero-padded. *)
Definition utc_date_stamp (now : JSDate.time_value) : jsstring :=
  JS.ToZeroPaddedDecimalString (JSDate.YearFromTime now) 4
    ++ js "-" ++ JS.ToZeroPaddedDecimalString (JSDate.MonthFromTime now + 1) 2
    ++ js "-" ++ JS.ToZeroPaddedDecimalString (JSDate.DateFromTime now) 2.

(** [haystack.includes(needle)]. *)
Fixpoint includes_text (haystack needle : jsstring) : bool :=
  bool_decide (needle `prefix_of` haystack)
  || match haystack with
     | [] => false
     | _ :: rest => includes_text rest needle
     end.

(** The validator as section 4.1 of the specification words it: a result
    that is either success or an [InvalidPathError] carrying the path at
    index 0, with no effect on the world. *)
Inductive validation :=
| Valid
| InvalidPathError (offending : jsstring).

Definition path_exists (w : World) (p : jsstring) : bool :=
  bool_decide (is_Some (files w !! p)) || bool_decide (p ∈ directories w).

Definition spec_validate (w : World) (directories : list jsstring)
  : option validation :=
  match directories with
  | p :: _ => Some (if path_exists w p then Valid else InvalidPathError p)
  | [] => None
  end.

(** Events by kind. *)
Definition notices (t : list event) : list jsstring :=
  omap (fun ev => match ev with Notice text => Some text | _ => None end) t.

Definition vault_reads (t : list event) : list TFile :=
  omap (fun ev => match ev with VaultRead f => Some f | _ => None end) t.

Definition file_writes (t : list event) : list (jsstring * jsstring) :=
  omap (fun ev => match ev with FileWrite p d => Some (p, d) | _ => None end) t.

(** The path a push writes to: the caller's [targetPath], or in dated mode
    the converted name resolved in the first folder ([None] when there is no
    first folder and [path.resolve] throws). *)
Definition push_target (path_resolve : jsstring -> jsstring -> jsstring)
  (settings : MarkdownBloggerSettings) (file : TFile) (targetPath : jsstring)
  (now : JSDate.time_value) : option jsstring :=
  if convertToJekyllFormat settings then
    folder ← projectFolders settings !! O;
    Some (path_resolve folder (convertToJekyllFileName now (name file)))
  else Some targetPath.

(** The world [w] after [data] was written at [p]. *)
Definition written (w : World) (p data : jsstring) : World :=
  {| files := <[p := data]> (files w); directories := directories w;
     vault := vault w; write_fault := write_fault w; clock := clock w |}.

(** The world [w] some time later: the vault may hold other text and the
    clock has moved; the disk is as it was left. *)
Definition later (w : World) (vault' : TFile -> Error + jsstring)
  (clock' : JSDate.time_value) : World :=
  {| files := files w; directories := directories w; vault := vault';
     write_fault := write_fault w; clock := clock' |}.

(** ** Notions used by the proofs *)

Definition all_digits (s : jsstring) : Prop :=
  Forall (fun c => is_digit c = true) s.

(** The number a string of decimal digits denotes. *)
Definition digits_value (s : jsstring) : N :=
  fold_left (fun acc c => 10 * acc + (c - JS.CHAR_ZERO))%N s 0%N.

(** The code units a date stamp is made of: digits, hyphen and plus. *)
Definition stamp_char (c : code_unit) : Prop :=
  is_digit c = true \/ c = JS.CHAR_HYPHEN \/ c = JS.CHAR_PLUS.

(** A code unit the Jekyll file name may hold: no white space, [#] or [?]. *)
Definition allowed_char (c : code_unit) : Prop :=
  JS.is_whitespace c = false /\ c <> JS.CHAR_HASH /\ c <> JS.CHAR_QUESTION.

(** [path.parse]'s loop variables once the code units of [suf], which
    starts at index [i] of a path of [len] units without separators, have
    been seen. *)
Definition scan_of (len i : Z) (suf : jsstring) : Path.scan :=
  match suf with
  | [] => {| Path.startDot := -1; Path.startPart := 0; Path.end_ := -1;
             Path.matchedSlash := true; Path.preDotState := 0 |}
  | c :: _ =>
      {| Path.startDot := match last_dot suf with
                          | Some j => i + Z.of_nat j
                          | None => -1
                          end;
         Path.startPart := 0;
         Path.end_ := len;
         Path.matchedSlash := false;
         Path.preDotState :=
           match last_dot suf with
           | None | Some O => 0
           | Some (S _) => if (c =? Path.CHAR_DOT)%N then 1 else -1
           end |}
  end.

(** The first index of the last component, as [path.parse] takes it once
    its loop is over. *)
Definition component_start (start : Z) (st : Path.scan) : Z :=
  if Path.startPart st =? 0 then start else Path.startPart st.

(** What the loop of [path.parse] has found while it runs, the indices from
    [i] on being seen: no component yet, or one that ends at [end_], holds no
    separator from [i] on and has its dot, if any, inside. *)
Definition scanning (path : jsstring) (i : Z) (st : Path.scan) : Prop :=
  Path.startPart st = 0
  /\ (Path.end_ st = -1 /\ Path.matchedSlash st = true /\ Path.startDot st = -1
      \/ Path.matchedSlash st = false
         /\ i <= Path.end_ st <= Z.of_nat (length path)
         /\ (forall k, i <= k < Path.end_ st ->
                       JS.charCodeAt path k <> Path.CHAR_FORWARD_SLASH)
         /\ (Path.startDot st = -1 \/ i <= Path.startDot st < Path.end_ st)).

(** What the loop leaves: no component, or one without a separator. *)
Definition scanned (path : jsstring) (start : Z) (st : Path.scan) : Prop :=
  Path.end_ st = -1
  \/ start <= component_start start st <= Path.end_ st
     /\ Path.end_ st <= Z.of_nat (length path)
     /\ (forall k, component_start start st <= k < Path.end_ st ->
                   JS.charCodeAt path k <> Path.CHAR_FORWARD_SLASH)
     /\ (Path.startDot st = -1
         \/ component_start start st <= Path.startDot st < Path.end_ st).

(** Every white-space unit of [s] is a space (U+0020) that a unit other
    than white space follows. *)
Fixpoint single_spaced (s : jsstring) : bool :=
  match s with
  | [] => true
  | c :: rest =>
      (if JS.is_whitespace c then
         (c =? JS.CHAR_SPACE)%N
         && match rest with
            | c' :: _ => negb (JS.is_whitespace c')
            | [] => false
            end
       else true)
      && single_spaced rest
  end.

(** A normalized path text: it starts with no white space, and its white
    space is single spaces between other units. *)
Definition is_normalized_path (s : jsstring) : bool :=
  match s with
  | c :: _ => negb (JS.is_whitespace c)
  | [] => true
  end && single_spaced s.

(** The last unit of [s], if any, is no white space. *)
Fixpoint ends_clean (s : jsstring) : bool :=
  match s with
  | [] => true
  | c :: rest =>
      match rest with
      | [] => negb (JS.is_whitespace c)
      | _ :: _ => ends_clean rest
      end
  end.

(** ** Concrete inputs for the examples *)

(** 2024-01-05T00:00:00Z, 2024-03-01T00:00:00Z and 10000-01-01T00:00:00Z. *)
Definition JAN_5_2024 : JSDate.time_value := 1704412800000.
Definition MAR_1_2024 : JSDate.time_value := 1709251200000.
Definition JAN_1_10000 : JSDate.time_value := 253402300800000.

(** [path.resolve(folder, fileName)] for an absolute, normalized folder
    and a plain file name. *)
Definition join_path (folder fileName : jsstring) : jsstring :=
  folder ++ js "/" ++ fileName.

(** The two file names of the specification's examples. *)
Definition spaced_name : jsstring := js "a   b" ++ [9%N] ++ js "c.md".
Definition tagged_name : jsstring := js "what? #tag.md".

Definition my_note : TFile :=
  {| path := js "notes/My Note.md"; name := js "My Note.md" |}.

(** A disk that holds the directory [/out] and nothing else, a vault whose
    notes read as [hello], and a clock at 2024-03-01. *)
Definition example_world : World :=
  {| files := ∅;
     directories := {[ js "/out" ]};
     vault := fun _ => inr (js "hello");
     write_fault := fun _ => None;
     clock := MAR_1_2024 |}.

(** The same world with a vault that cannot be read, and with a disk that
    refuses every write. *)
Definition unreadable_world : World :=
  later example_world
    (fun _ => inl {| message := js "ENOENT: no such file or directory" |})
    MAR_1_2024.

Definition read_only_world : World :=
  {| files := ∅;
     directories := {[ js "/out" ]};
     vault := fun _ => inr (js "hello");
     write_fault := fun _ => Some {| message := js "EACCES: permission denied" |};
     clock := MAR_1_2024 |}.

Definition settings_with (folders : list jsstring) (dated : bool)
  : MarkdownBloggerSettings :=
  {| projectFolders := folders; showHiddenFolders := false;
     convertToJekyllFormat := dated |}.

(** ** Proof tools *)

(** Equality of two [Path.scan] records whose fields agree up to arithmetic. *)
Ltac scan_eq := f_equal; try (f_equal; lia).

(** Unfolds the monad and the host's primitives. *)
Ltac run_M :=
  unfold pushFile, isProjectPathValid, resolve_in_folder, FileService.writeFile,
    FileService.exists_, writeFileSync, existsSync, vault_read, new_Date,
    new_Notice, console_log, open_ErrorModal, emit, try_catch, throw,
    mbind, mret, M_bind, M_ret, bind, ret,
    outcome, world_after, events in *.

(* ================================================================== *)
(** * Part IV: properties                                              *)
(* ================================================================== *)

(** ** Global replacement *)

Lemma replace_from_Class_delete p fuel s :
  (length s <= fuel)%nat ->
  JS.replace_from (JS.Class p) [] fuel s = delete_all p s.
Proof.
  revert s. induction fuel as [|fuel IH]; intros [|c rest] Hlen;
    simpl in *; try lia; try reflexivity.
  destruct (p c); simpl.
  - apply IH. lia.
  - f_equal. apply IH. lia.
Qed.

Lemma replace_all_Class_delete p s :
  JS.replace_all (JS.Class p) [] s = delete_all p s.
Proof. apply replace_from_Class_delete. reflexivity. Qed.

Lemma collapse_runs_skip p rep c rest :
  p c = true ->
  collapse_runs p rep (c :: rest)
  = rep ++ collapse_runs p rep (drop (JS.run_length p rest) rest).
Proof.
  revert c. induction rest as [|c' rest IH]; intros c Hc.
  - simpl. rewrite Hc. symmetry. apply app_nil_r.
  - change (collapse_runs p rep (c :: c' :: rest))
      with (if p c then if p c' then collapse_runs p rep (c' :: rest)
                        else rep ++ collapse_runs p rep (c' :: rest)
            else c :: collapse_runs p rep (c' :: rest)).
    rewrite Hc. simpl JS.run_length.
    destruct (p c') eqn:Hc'.
    + rewrite (IH c' Hc'). reflexivity.
    + reflexivity.
Qed.

Lemma replace_from_Plus_collapse p rep fuel s :
  (length s <= fuel)%nat ->
  JS.replace_from (JS.Plus p) rep fuel s = collapse_runs p rep s.
Proof.
  revert s. induction fuel as [|fuel IH]; intros [|c rest] Hlen;
    simpl length in *; try lia; try reflexivity.
  cbn [JS.replace_from JS.match_at JS.run_length].
  destruct (p c) eqn:Hc.
  - rewrite (collapse_runs_skip p rep c rest Hc). f_equal.
    apply IH. rewrite length_drop. lia.
  - simpl. rewrite Hc. f_equal. apply IH. lia.
Qed.

Lemma replace_all_Plus_collapse p rep s :
  JS.replace_all (JS.Plus p) rep s = collapse_runs p rep s.
Proof. apply replace_from_Plus_collapse. reflexivity. Qed.

(** What [collapse_runs] does to a string cut at its runs. *)
Lemma collapse_runs_clean p rep s :
  forallb (fun c => negb (p c)) s = true -> collapse_runs p rep s = s.
Proof.
  induction s as [|c rest IH]; simpl; [reflexivity|].
  intros [Hc Hrest]%andb_prop. apply negb_true_iff in Hc. rewrite Hc.
  f_equal. auto.
Qed.

Lemma collapse_runs_run p rep run tail :
  run <> [] -> forallb p run = true ->
  match tail with c :: _ => p c = false | [] => True end ->
  collapse_runs p rep (run ++ tail) = rep ++ collapse_runs p rep tail.
Proof.
  intros Hne Hrun Htail. induction run as [|c run IH]; [congruence|].
  simpl in Hrun. apply andb_prop in Hrun as [Hc Hrun].
  destruct run as [|c' run].
  - simpl. rewrite Hc. destruct tail as [|t tail]; simpl.
    + symmetry; apply app_nil_r.
    + rewrite Htail. reflexivity.
  - change (collapse_runs p rep ((c :: c' :: run) ++ tail))
      with (if p c then if p c' then collapse_runs p rep ((c' :: run) ++ tail)
                        else rep ++ collapse_runs p rep ((c' :: run) ++ tail)
            else c :: collapse_runs p rep ((c' :: run) ++ tail)).
    rewrite Hc. simpl in Hrun. apply andb_prop in Hrun as [Hc' Hrun'].
    rewrite Hc'. apply IH; [congruence|]. simpl. rewrite Hc', Hrun'. reflexivity.
Qed.

Lemma collapse_runs_app p rep a b :
  match b with c :: _ => p c = false | [] => True end ->
  collapse_runs p rep (a ++ b) = collapse_runs p rep a ++ collapse_runs p rep b.
Proof.
  intros Hb. induction a as [|c a IH]; [reflexivity|].
  destruct a as [|c' a].
  - simpl. destruct (p c) eqn:Hc.
    + destruct b as [|c' b]; simpl; [rewrite app_nil_r; reflexivity|].
      rewrite Hb. reflexivity.
    + reflexivity.
  - change (collapse_runs p rep ((c :: c' :: a) ++ b))
      with (if p c then if p c' then collapse_runs p rep ((c' :: a) ++ b)
                        else rep ++ collapse_runs p rep ((c' :: a) ++ b)
            else c :: collapse_runs p rep ((c' :: a) ++ b)).
    change (collapse_runs p rep (c :: c' :: a))
      with (if p c then if p c' then collapse_runs p rep (c' :: a)
                        else rep ++ collapse_runs p rep (c' :: a)
            else c :: collapse_runs p rep (c' :: a)).
    rewrite IH. destruct (p c), (p c'); simpl; try reflexivity.
    rewrite app_assoc. reflexivity.
Qed.

(** ** Splitting *)

Lemma split_first sep a b :
  Forall (fun c => c <> sep) a ->
  nth O (JS.split sep (a ++ sep :: b)) [] = a.
Proof.
  induction 1 as [|c a Hc Ha IH]; simpl.
  - rewrite N.eqb_refl. reflexivity.
  - apply N.eqb_neq in Hc. rewrite Hc.
    destruct (JS.split sep (a ++ sep :: b)) eqn:E; simpl in *; congruence.
Qed.

(** ** Decimal digits *)

Lemma digits_of_all_digits fuel n : all_digits (JS.digits_of fuel n).
Proof.
  revert n. induction fuel as [|fuel IH]; intros n; simpl; [constructor|].
  destruct (n <? 10)%N eqn:E.
  - apply N.ltb_lt in E. repeat constructor.
    unfold is_digit, JS.CHAR_ZERO. apply andb_true_intro; split; apply N.leb_le; lia.
  - apply Forall_app; split; [apply IH|]. repeat constructor.
    unfold is_digit, JS.CHAR_ZERO.
    generalize (N.mod_upper_bound n 10 ltac:(lia)).
    generalize (n mod 10)%N. intros m Hm.
    apply andb_true_intro; split; apply N.leb_le; lia.
Qed.

Lemma padded_all_digits n k : all_digits (JS.ToZeroPaddedDecimalString n k).
Proof.
  unfold JS.ToZeroPaddedDecimalString, JS.pad_start_zero.
  apply Forall_app; split; [|apply digits_of_all_digits].
  apply Forall_forall. intros c Hc%list_elem_of_In%repeat_spec. subst. reflexivity.
Qed.

(** The digits of a number below [10^k] are at most [k]. *)
Lemma digits_of_length fuel n k :
  (n < 10 ^ N.of_nat k)%N -> (0 < k)%nat ->
  (length (JS.digits_of fuel n) <= k)%nat.
Proof.
  revert n k. induction fuel as [|fuel IH]; intros n k Hn Hk; simpl; [lia|].
  destruct (n <? 10)%N eqn:E; simpl; [lia|].
  apply N.ltb_ge in E. rewrite length_app. simpl.
  destruct k as [|k]; [lia|].
  destruct k as [|k].
  { simpl in Hn. lia. }
  assert (n / 10 < 10 ^ N.of_nat (S k))%N.
  { apply N.Div0.div_lt_upper_bound.
    replace (N.of_nat (S (S k))) with (N.succ (N.of_nat (S k))) in Hn by lia.
    rewrite N.pow_succ_r' in Hn. exact Hn. }
  specialize (IH (n / 10)%N (S k) H ltac:(lia)). lia.
Qed.

Lemma digits_of_nonempty fuel n : (0 < fuel)%nat -> JS.digits_of fuel n <> [].
Proof.
  destruct fuel; [lia|]. intros _. simpl.
  destruct (n <? 10)%N; [discriminate|].
  intros H. apply app_eq_nil in H as [_ H]. discriminate.
Qed.

Lemma padded_length n k :
  0 <= n < 10 ^ Z.of_nat k -> (0 < k)%nat ->
  length (JS.ToZeroPaddedDecimalString n k) = k.
Proof.
  intros Hn Hk. unfold JS.ToZeroPaddedDecimalString, JS.pad_start_zero, JS.decimal.
  rewrite length_app, repeat_length.
  assert (length (JS.digits_of (S (N.to_nat (N.log2 (Z.to_N n)))) (Z.to_N n)) <= k)%nat.
  { apply digits_of_length; [|exact Hk].
    apply N2Z.inj_lt. rewrite Z2N.id by lia. rewrite N2Z.inj_pow.
    rewrite nat_N_Z. simpl Z.of_N. lia. }
  lia.
Qed.

Lemma digits_value_snoc s c :
  digits_value (s ++ [c]) = (10 * digits_value s + (c - JS.CHAR_ZERO))%N.
Proof. unfold digits_value. rewrite fold_left_app. reflexivity. Qed.

Lemma digits_of_value fuel n :
  (n < 10 ^ N.of_nat fuel)%N -> digits_value (JS.digits_of fuel n) = n.
Proof.
  revert n. induction fuel as [|fuel IH]; intros n Hn.
  - simpl in Hn. assert (n = 0%N) as -> by lia. reflexivity.
  - simpl. destruct (n <? 10)%N eqn:E.
    + unfold digits_value, JS.CHAR_ZERO. simpl. lia.
    + apply N.ltb_ge in E. rewrite digits_value_snoc, IH.
      * unfold JS.CHAR_ZERO. pose proof (N.div_mod n 10 ltac:(lia)) as Hdm.
        revert Hdm. generalize (n / 10)%N (n mod 10)%N. intros q r Hdm. lia.
      * apply N.Div0.div_lt_upper_bound.
        replace (N.of_nat (S fuel)) with (N.succ (N.of_nat fuel)) in Hn by lia.
        rewrite N.pow_succ_r' in Hn. exact Hn.
Qed.

(** The digits [decimal] writes denote the number. *)
Lemma decimal_value n : digits_value (JS.decimal n) = n.
Proof.
  unfold JS.decimal. apply digits_of_value.
  destruct (N.eq_dec n 0%N) as [->|Hn]; [reflexivity|].
  replace (N.of_nat (S (N.to_nat (N.log2 n)))) with (N.succ (N.log2 n)) by lia.
  pose proof (N.log2_spec n ltac:(lia)) as [_ Hlt].
  eapply N.lt_le_trans; [exact Hlt|].
  apply N.pow_le_mono_l. lia.
Qed.

(** Zero padding does not change the number. *)
Lemma padded_value n k :
  0 <= n -> Z.of_N (digits_value (JS.ToZeroPaddedDecimalString n k)) = n.
Proof.
  intros Hn. unfold JS.ToZeroPaddedDecimalString, JS.pad_start_zero.
  assert (forall m s, digits_value (repeat JS.CHAR_ZERO m ++ s) = digits_value s) as Hpad.
  { induction m as [|m IH]; intros s; [reflexivity|]. simpl. apply IH. }
  rewrite Hpad, decimal_value. lia.
Qed.

(** ** Calendar fields *)

Section Calendar.
Import JSDate.

Lemma DayFromYear_step y : DayFromYear (y + 1) = DayFromYear y + DaysInYear y.
Proof.
  unfold DayFromYear, DaysInYear.
  destruct (y mod 4 =? 0) eqn:E4; destruct (y mod 100 =? 0) eqn:E100;
    destruct (y mod 400 =? 0) eqn:E400; simpl;
    rewrite ?Z.eqb_eq, ?Z.eqb_neq in *;
    Z.to_euclidean_division_equations; lia.
Qed.

Lemma YearFromDay_bounds t :
  DayFromYear (YearFromTime t) <= Day t < DayFromYear (YearFromTime t + 1).
Proof.
  unfold YearFromTime. generalize (Day t). intros d.
  cbv zeta.
  destruct (DayFromYear (1970 + d * 400 / 146097 + 1) <=? d) eqn:E1;
    [|destruct (DayFromYear (1970 + d * 400 / 146097) <=? d) eqn:E2];
    rewrite ?Z.leb_le, ?Z.leb_gt in *.
  - split; [exact E1|]. unfold DayFromYear in *.
    Z.to_euclidean_division_equations; lia.
  - split; [exact E2|exact E1].
  - replace (1970 + d * 400 / 146097 - 1 + 1) with (1970 + d * 400 / 146097) by lia.
    split; [|exact E2]. unfold DayFromYear in *.
    Z.to_euclidean_division_equations; lia.
Qed.

Lemma DayFromYear_mono y1 y2 : y1 <= y2 -> DayFromYear y1 <= DayFromYear y2.
Proof.
  intros H. unfold DayFromYear. Z.to_euclidean_division_equations; lia.
Qed.

Lemma TimeFromYear_le t y : TimeFromYear y <= t <-> DayFromYear y <= Day t.
Proof.
  unfold TimeFromYear, Day, msPerDay. split; intros H.
  - apply Z.div_le_lower_bound; lia.
  - Z.to_euclidean_division_equations; lia.
Qed.

(** [YearFromTime t] is the largest year that starts no later than [t]. *)
Lemma YearFromTime_spec t :
  TimeFromYear (YearFromTime t) <= t
  /\ forall y, TimeFromYear y <= t -> y <= YearFromTime t.
Proof.
  pose proof (YearFromDay_bounds t) as [Hlo Hhi]. split.
  - apply TimeFromYear_le. exact Hlo.
  - intros y Hy%TimeFromYear_le.
    destruct (Z_le_gt_dec y (YearFromTime t)) as [|Hgt]; [assumption|].
    pose proof (DayFromYear_mono (YearFromTime t + 1) y ltac:(lia)). lia.
Qed.

Lemma DayWithinYear_range t :
  0 <= DayWithinYear t < 365 + InLeapYear t.
Proof.
  pose proof (YearFromDay_bounds t) as [Hlo Hhi].
  rewrite DayFromYear_step in Hhi.
  unfold DayWithinYear, InLeapYear.
  assert (DaysInYear (YearFromTime t) = 365 \/ DaysInYear (YearFromTime t) = 366) as [E|E].
  { unfold DaysInYear. repeat destruct (negb _); auto. }
  - rewrite E in *. simpl. lia.
  - rewrite E in *. simpl. lia.
Qed.

Lemma InLeapYear_cases t : InLeapYear t = 0 \/ InLeapYear t = 1.
Proof. unfold InLeapYear. destruct (_ =? _); auto. Qed.

Lemma MonthFromTime_range t : 0 <= MonthFromTime t <= 11.
Proof.
  unfold MonthFromTime. cbv zeta.
  repeat (destruct (_ <? _); [lia|]). lia.
Qed.

Lemma DateFromTime_range t : 1 <= DateFromTime t <= 31.
Proof.
  pose proof (DayWithinYear_range t) as Hd.
  pose proof (InLeapYear_cases t) as Hl.
  unfold DateFromTime, MonthFromTime. cbv zeta.
  generalize dependent (DayWithinYear t). intros d Hd.
  generalize dependent (InLeapYear t). intros leap Hd Hl.
  repeat (destruct (d <? _) eqn:?; rewrite ?Z.ltb_lt, ?Z.ltb_ge in *; [simpl; lia|]).
  simpl. lia.
Qed.

End Calendar.

(** ** [path.parse] on a file name *)

Section ParseFileName.
Import Path.

Lemma scan_step_no_slash path len i c suf :
  0 <= i -> len = i + 1 + Z.of_nat (length suf) ->
  JS.charCodeAt path i = c -> c <> CHAR_FORWARD_SLASH ->
  scan_step path i (scan_of len (i + 1) suf) = (scan_of len i (c :: suf), false).
Proof.
  intros Hi Hlen Hc Hslash. unfold scan_step. rewrite Hc.
  apply N.eqb_neq in Hslash. rewrite Hslash.
  destruct suf as [|c' suf].
  - simpl in *. replace (i + 1) with len by lia.
    destruct (c =? CHAR_DOT)%N eqn:Hdot; simpl.
    + scan_eq.
    + reflexivity.
  - assert ((len =? -1) = false) as Hend by (apply Z.eqb_neq; simpl in Hlen; lia).
    cbn [scan_of end_]. rewrite Hend.
    cbn [startDot preDotState startPart end_ matchedSlash].
    change (last_dot (c :: c' :: suf))
      with (match last_dot (c' :: suf) with
            | Some j => Some (S j)
            | None => if (c =? CHAR_DOT)%N then Some O else None
            end).
    destruct (last_dot (c' :: suf)) as [j|] eqn:Hlast.
    + assert ((i + 1 + Z.of_nat j =? -1) = false) as Hsd by (apply Z.eqb_neq; lia).
      rewrite Hsd. cbn [negb].
      destruct (c =? CHAR_DOT)%N eqn:Hdot.
      * destruct j as [|j].
        -- simpl. scan_eq.
        -- destruct (c' =? CHAR_DOT)%N; simpl; scan_eq.
      * scan_eq.
    + rewrite Z.eqb_refl. cbn [negb].
      destruct (c =? CHAR_DOT)%N eqn:Hdot; scan_eq.
Qed.

Lemma scan_loop_no_slash pre suf :
  Forall (fun c => c <> CHAR_FORWARD_SLASH) pre ->
  scan_loop (pre ++ suf) 0 (length pre)
    (scan_of (Z.of_nat (length (pre ++ suf))) (Z.of_nat (length pre)) suf)
  = scan_of (Z.of_nat (length (pre ++ suf))) 0 (pre ++ suf).
Proof.
  revert suf. induction pre as [|c pre IH] using rev_ind; intros suf Hpre.
  - reflexivity.
  - apply Forall_app in Hpre as [Hpre Hc]. inversion Hc as [|? ? Hc' _]; subst.
    rewrite length_app. simpl length. rewrite Nat.add_1_r.
    cbn [scan_loop]. rewrite Z.add_0_l.
    replace (Z.of_nat (S (length pre))) with (Z.of_nat (length pre) + 1) by lia.
    rewrite (scan_step_no_slash _ _ _ c suf); try lia; try assumption.
    + rewrite <- (app_assoc pre [c] suf). simpl app. apply IH. exact Hpre.
    + rewrite !length_app. simpl. lia.
    + unfold JS.charCodeAt. rewrite Nat2Z.id.
      rewrite <- (app_assoc pre [c] suf). rewrite app_nth2 by lia.
      rewrite Nat.sub_diag. reflexivity.
Qed.

Lemma last_dot_lt s i : last_dot s = Some i -> (i < length s)%nat.
Proof.
  revert i. induction s as [|c s IH]; intros i; simpl; [discriminate|].
  destruct (last_dot s) as [j|].
  - intros [= <-]. specialize (IH j eq_refl). lia.
  - destruct (c =? CHAR_DOT)%N; [intros [= <-]; lia|discriminate].
Qed.

(** On a file name, [path.parse(..).name] is the name without its
    extension. *)
Lemma parse_name_file_name fileName :
  is_file_name fileName ->
  name (parse fileName) = strip_extension fileName.
Proof.
  intros Hfile. destruct fileName as [|first rest]; [reflexivity|].
  assert (Forall (fun c => c <> CHAR_FORWARD_SLASH) (first :: rest)) as Hall.
  { apply Forall_forall. intros c Hc ->. exact (Hfile Hc). }
  assert ((first =? CHAR_FORWARD_SLASH)%N = false) as Hfirst.
  { apply N.eqb_neq. inversion Hall; assumption. }
  unfold parse. rewrite Hfirst. cbv zeta.
  rewrite Z.sub_0_r, Nat2Z.id.
  pose proof (scan_loop_no_slash (first :: rest) [] Hall) as Hscan.
  rewrite app_nil_r in Hscan. change (scan_of _ _ []) with
    {| startDot := -1; startPart := 0; end_ := -1;
       matchedSlash := true; preDotState := 0 |} in Hscan.
  rewrite Hscan. clear Hscan.
  set (len := Z.of_nat (length (first :: rest))).
  assert (0 < len) as Hlen by (subst len; simpl; lia).
  unfold strip_extension, scan_of.
  cbn [name startDot startPart end_ preDotState].
  assert ((len =? -1) = false) as -> by (apply Z.eqb_neq; lia).
  rewrite andb_false_r. unfold JS.slice. rewrite Z.sub_0_r. simpl drop.
  pose proof (last_dot_lt (first :: rest)) as Hlt.
  destruct (last_dot (first :: rest)) as [[|j]|] eqn:Hlast.
  - simpl. subst len. rewrite Nat2Z.id. apply firstn_all.
  - specialize (Hlt _ eq_refl).
    replace (Z.to_nat (0 + Z.of_nat (S j) - 0)) with (S j) by lia.
    replace (take (Z.to_nat len) (first :: rest)) with (first :: rest)
      by (subst len; rewrite Nat2Z.id; symmetry; apply firstn_all).
    match goal with |- (if ?b then _ else _) = _ => destruct b eqn:Hwhole end.
    + rewrite bool_decide_true; [reflexivity|].
      rewrite !orb_true_iff, !andb_true_iff, !Z.eqb_eq in Hwhole.
      destruct (first =? CHAR_DOT)%N eqn:Hdot; [|lia].
      destruct Hwhole as [[?|?]|[[_ Hend] Hone]]; try lia.
      subst len. destruct rest as [|second [|third rest]]; simpl in Hend; try lia.
      assert (j = O) as -> by lia.
      simpl in Hlast. destruct (second =? CHAR_DOT)%N eqn:Hsecond;
        [|rewrite Hdot in Hlast; discriminate].
      apply N.eqb_eq in Hdot, Hsecond. subst. reflexivity.
    + rewrite bool_decide_false; [reflexivity|].
      intros Heq. subst len. rewrite Heq in Hlast, Hwhole.
      injection Heq as -> ->. injection Hlast as <-. discriminate Hwhole.
  - simpl. subst len. rewrite Nat2Z.id. apply firstn_all.
Qed.

End ParseFileName.

(** ** The date stamp *)

Lemma digit_stamp_char s : all_digits s -> Forall stamp_char s.
Proof. intros H. eapply Forall_impl; [exact H|]. intros c Hc. left. exact Hc. Qed.

Lemma iso_year_stamp_chars y : Forall stamp_char (JSDate.iso_year y).
Proof.
  unfold JSDate.iso_year. destruct ((0 <=? y) && (y <=? 9999)).
  - apply digit_stamp_char, padded_all_digits.
  - constructor; [|apply digit_stamp_char, padded_all_digits].
    destruct (0 <? y); [right; right|right; left]; reflexivity.
Qed.

Lemma iso_year_four_digits y :
  0 <= y <= 9999 -> JSDate.iso_year y = JS.ToZeroPaddedDecimalString y 4.
Proof.
  intros Hy. unfold JSDate.iso_year.
  destruct (0 <=? y) eqn:E1; destruct (y <=? 9999) eqn:E2;
    rewrite ?Z.leb_gt in *; try lia; reflexivity.
Qed.

Lemma stamp_fields y m d :
  Forall stamp_char
    (JSDate.iso_year y ++ js "-" ++ JS.ToZeroPaddedDecimalString m 2
       ++ js "-" ++ JS.ToZeroPaddedDecimalString d 2).
Proof.
  apply Forall_app; split; [apply iso_year_stamp_chars|].
  constructor; [right; left; reflexivity|].
  apply Forall_app; split; [apply digit_stamp_char, padded_all_digits|].
  constructor; [right; left; reflexivity|].
  apply digit_stamp_char, padded_all_digits.
Qed.

(** [toISOString().split('T')[0]] is the text before the [T]: year, month
    and day. *)
Lemma isoDate_fields now :
  isoDate now
  = JSDate.iso_year (JSDate.YearFromTime now)
      ++ js "-" ++ JS.ToZeroPaddedDecimalString (JSDate.MonthFromTime now + 1) 2
      ++ js "-" ++ JS.ToZeroPaddedDecimalString (JSDate.DateFromTime now) 2.
Proof.
  unfold isoDate.
  assert (JSDate.toISOString now
          = (JSDate.iso_year (JSDate.YearFromTime now)
               ++ js "-" ++ JS.ToZeroPaddedDecimalString (JSDate.MonthFromTime now + 1) 2
               ++ js "-" ++ JS.ToZeroPaddedDecimalString (JSDate.DateFromTime now) 2)
            ++ 84%N
               :: JS.ToZeroPaddedDecimalString (JSDate.HourFromTime now) 2
               ++ js ":" ++ JS.ToZeroPaddedDecimalString (JSDate.MinFromTime now) 2
               ++ js ":" ++ JS.ToZeroPaddedDecimalString (JSDate.SecFromTime now) 2
               ++ js "." ++ JS.ToZeroPaddedDecimalString (JSDate.msFromTime now) 3
               ++ js "Z") as ->.
  { unfold JSDate.toISOString. rewrite <- !app_assoc. reflexivity. }
  apply split_first.
  assert (forall s, Forall stamp_char s -> Forall (fun c => c <> 84%N) s) as Hno.
  { intros s Hs. eapply Forall_impl; [exact Hs|].
    intros c [Hc|[->| ->]]; [|discriminate..]. intros ->. discriminate. }
  apply Hno, stamp_fields.
Qed.

Lemma isoDate_four_digit_year now :
  0 <= JSDate.YearFromTime now <= 9999 -> isoDate now = utc_date_stamp now.
Proof.
  intros Hy. rewrite isoDate_fields, (iso_year_four_digits _ Hy). reflexivity.
Qed.

Lemma isoDate_stamp_chars now : Forall stamp_char (isoDate now).
Proof.
  rewrite isoDate_fields. apply stamp_fields.
Qed.

(** In the years 0 to 9999 the stamp has the shape [YYYY-MM-DD]. *)
Lemma utc_date_stamp_shape now :
  0 <= JSDate.YearFromTime now <= 9999 -> is_YYYY_MM_DD (utc_date_stamp now) = true.
Proof.
  intros Hy. unfold utc_date_stamp.
  pose proof (MonthFromTime_range now) as Hm.
  pose proof (DateFromTime_range now) as Hd.
  pose proof (padded_length (JSDate.YearFromTime now) 4 ltac:(simpl; lia) ltac:(lia)) as L1.
  pose proof (padded_length (JSDate.MonthFromTime now + 1) 2 ltac:(simpl; lia) ltac:(lia)) as L2.
  pose proof (padded_length (JSDate.DateFromTime now) 2 ltac:(simpl; lia) ltac:(lia)) as L3.
  pose proof (padded_all_digits (JSDate.YearFromTime now) 4) as D1.
  pose proof (padded_all_digits (JSDate.MonthFromTime now + 1) 2) as D2.
  pose proof (padded_all_digits (JSDate.DateFromTime now) 2) as D3.
  destruct (JS.ToZeroPaddedDecimalString (JSDate.YearFromTime now) 4)
    as [|y1 [|y2 [|y3 [|y4 [|]]]]]; try discriminate L1.
  destruct (JS.ToZeroPaddedDecimalString (JSDate.MonthFromTime now + 1) 2)
    as [|m1 [|m2 [|]]]; try discriminate L2.
  destruct (JS.ToZeroPaddedDecimalString (JSDate.DateFromTime now) 2)
    as [|d1 [|d2 [|]]]; try discriminate L3.
  unfold all_digits in *.
  repeat match goal with
         | H : Forall _ (_ :: _) |- _ => apply Forall_cons in H as [? H]
         end.
  simpl. repeat match goal with H : is_digit _ = true |- _ => rewrite H; clear H end.
  reflexivity.
Qed.

(** The stamp's three fields denote the UTC year, month and day. *)
Lemma utc_date_stamp_fields now :
  0 <= JSDate.YearFromTime now ->
  Z.of_N (digits_value (JS.ToZeroPaddedDecimalString (JSDate.YearFromTime now) 4))
  = JSDate.YearFromTime now
  /\ Z.of_N (digits_value
               (JS.ToZeroPaddedDecimalString (JSDate.MonthFromTime now + 1) 2))
     = JSDate.MonthFromTime now + 1
  /\ Z.of_N (digits_value (JS.ToZeroPaddedDecimalString (JSDate.DateFromTime now) 2))
     = JSDate.DateFromTime now.
Proof.
  intros Hy. pose proof (MonthFromTime_range now). pose proof (DateFromTime_range now).
  repeat split; apply padded_value; lia.
Qed.

(** A stamp of the shape [YYYY-MM-DD] starts with a digit. *)
Lemma YYYY_MM_DD_starts_with_digit d rest c tail :
  is_YYYY_MM_DD d = true -> d ++ rest = c :: tail -> is_digit c = true.
Proof.
  intros Hd Heq. destruct d as [|y1 d]; [discriminate|].
  injection Heq as <- _.
  do 9 (destruct d as [|? d]; [discriminate|]). destruct d; [|discriminate].
  simpl in Hd. rewrite !andb_true_iff in Hd. tauto.
Qed.

(** ** The sanitized title *)

Lemma delete_all_idempotent p s : delete_all p (delete_all p s) = delete_all p s.
Proof.
  induction s as [|c s IH]; simpl; [reflexivity|].
  destruct (p c) eqn:Hc; simpl; [assumption|]. rewrite Hc, IH. reflexivity.
Qed.

Lemma delete_all_outside p s : Forall (fun c => p c = false) (delete_all p s).
Proof.
  induction s as [|c s IH]; simpl; [constructor|].
  destruct (p c) eqn:Hc; [assumption|]. constructor; assumption.
Qed.

Lemma collapse_runs_Forall (Q : code_unit -> Prop) p rep s :
  Forall Q rep -> Forall (fun c => p c = false -> Q c) s ->
  Forall Q (collapse_runs p rep s).
Proof.
  intros Hrep. induction 1 as [|c s Hc Hs IH]; [constructor|].
  simpl. destruct (p c) eqn:Ec.
  - destruct s as [|c' s]; [assumption|].
    destruct (p c'); [assumption|]. apply Forall_app. split; assumption.
  - constructor; auto.
Qed.

Lemma stamp_char_allowed c : stamp_char c -> allowed_char c.
Proof.
  unfold stamp_char, allowed_char, is_digit, JS.is_whitespace,
    JS.CHAR_HASH, JS.CHAR_QUESTION, JS.CHAR_HYPHEN, JS.CHAR_PLUS.
  intros [Hc|[->| ->]]; [|repeat split; discriminate..].
  apply andb_true_iff in Hc as [H1%N.leb_le H2%N.leb_le].
  repeat split; try lia.
  rewrite !orb_false_iff, !andb_false_iff, !N.leb_gt, !N.eqb_neq. lia.
Qed.

Lemma sanitizeTitle_allowed title : Forall allowed_char (sanitizeTitle title).
Proof.
  unfold sanitizeTitle, removeDisallowed.
  rewrite replace_all_Plus_collapse, replace_all_Class_delete.
  apply collapse_runs_Forall.
  - repeat constructor; discriminate.
  - eapply Forall_impl; [apply delete_all_outside|].
    intros c Hc Hws. unfold JS.is_hash_or_question in Hc.
    apply orb_false_iff in Hc as [H1%N.eqb_neq H2%N.eqb_neq].
    repeat split; assumption.
Qed.

(** ** The push, case by case *)

Section PushFile.
Variable path_resolve : jsstring -> jsstring -> jsstring.

(** What [pushFile] does, by what the vault and the file system answer. *)
Lemma pushFile_read_fails settings file targetPath w e :
  vault w file = inl e ->
  pushFile path_resolve settings file targetPath w
  = (inr tt, (w, [ConsoleLog targetPath; VaultRead file;
                  Notice (PUSH_FAILURE_PREFIX ++ message e)])).
Proof. intros Hread. run_M. rewrite Hread. reflexivity. Qed.

Lemma pushFile_no_folder settings file targetPath w content :
  vault w file = inr content ->
  push_target path_resolve settings file targetPath (clock w) = None ->
  pushFile path_resolve settings file targetPath w
  = (inr tt, (w, [ConsoleLog targetPath; VaultRead file;
                  Notice (PUSH_FAILURE_PREFIX ++ message ERR_INVALID_ARG_TYPE)])).
Proof.
  intros Hread Htarget. unfold push_target in Htarget. run_M. rewrite Hread.
  destruct (convertToJekyllFormat settings); [|discriminate].
  destruct (projectFolders settings !! O); [discriminate|]. reflexivity.
Qed.

Lemma pushFile_write_fails settings file targetPath w content p e :
  vault w file = inr content ->
  push_target path_resolve settings file targetPath (clock w) = Some p ->
  write_fault w p = Some e ->
  pushFile path_resolve settings file targetPath w
  = (inr tt, (w, [ConsoleLog targetPath; VaultRead file; FileWrite p content;
                  Notice (PUSH_FAILURE_PREFIX ++ message e)])).
Proof.
  intros Hread Htarget Hwrite. unfold push_target in Htarget. run_M.
  rewrite Hread.
  destruct (convertToJekyllFormat settings).
  - destruct (projectFolders settings !! O); [|discriminate].
    injection Htarget as Htarget. simpl. rewrite Htarget, Hwrite. reflexivity.
  - injection Htarget as ->. simpl. rewrite Hwrite. reflexivity.
Qed.

Lemma pushFile_succeeds settings file targetPath w content p :
  vault w file = inr content ->
  push_target path_resolve settings file targetPath (clock w) = Some p ->
  write_fault w p = None ->
  pushFile path_resolve settings file targetPath w
  = (inr tt, (written w p content,
              [ConsoleLog targetPath; VaultRead file; FileWrite p content;
               Notice (PUSH_SUCCESS_PREFIX ++ p)])).
Proof.
  intros Hread Htarget Hwrite. unfold push_target in Htarget. run_M.
  rewrite Hread.
  destruct (convertToJekyllFormat settings).
  - destruct (projectFolders settings !! O); [|discriminate].
    injection Htarget as Htarget. simpl. rewrite Htarget, Hwrite. reflexivity.
  - injection Htarget as ->. simpl. rewrite Hwrite. reflexivity.
Qed.

End PushFile.

(** ** The filename transform *)

(** The transform, with the two replacements and the date spelled out. *)
Lemma convertToJekyllFileName_unfold now fileName :
  convertToJekyllFileName now fileName
  = isoDate now ++ js "-"
      ++ collapse_runs JS.is_whitespace (js "-")
           (delete_all JS.is_hash_or_question (Path.name (Path.parse fileName)))
      ++ js ".md".
Proof.
  unfold convertToJekyllFileName, sanitizeTitle, removeDisallowed.
  rewrite replace_all_Plus_collapse, replace_all_Class_delete. reflexivity.
Qed.

(** The specification's two examples, and its end-to-end file name. *)
Example convert_spaced_name :
  convertToJekyllFileName JAN_5_2024 spaced_name = js "2024-01-05-a-b-c.md".
Proof. vm_compute. reflexivity. Qed.

Example convert_tagged_name :
  convertToJekyllFileName JAN_5_2024 tagged_name = js "2024-01-05-what-tag.md".
Proof. vm_compute. reflexivity. Qed.

Example convert_my_note :
  convertToJekyllFileName MAR_1_2024 (name my_note) = js "2024-03-01-My-Note.md".
Proof. vm_compute. reflexivity. Qed.

(** C1, as amended: for every file name and every date whose UTC year lies
    in 0..9999, the dated transform returns the stamp [YYYY-MM-DD] written
    from the UTC year, month and day, a hyphen, the title and [.md]; the
    title is the name without its extension, then without any [#] or [?],
    then with each maximal run of white space turned into one hyphen. *)
Theorem convertToJekyllFileName_pipeline now fileName :
  is_file_name fileName ->
  0 <= JSDate.YearFromTime now <= 9999 ->
  convertToJekyllFileName now fileName
  = utc_date_stamp now ++ js "-"
      ++ collapse_runs JS.is_whitespace (js "-")
           (delete_all JS.is_hash_or_question (strip_extension fileName))
      ++ js ".md"
  /\ is_YYYY_MM_DD (utc_date_stamp now) = true.
Proof.
  intros Hfile Hyear. split.
  - rewrite convertToJekyllFileName_unfold, (parse_name_file_name _ Hfile),
      (isoDate_four_digit_year _ Hyear). reflexivity.
  - apply utc_date_stamp_shape, Hyear.
Qed.

(** The theorem at the specification's first example. *)
Lemma spaced_name_is_file_name : is_file_name spaced_name.
Proof. apply (bool_decide_unpack _). vm_compute. reflexivity. Defined.

Lemma year_of_JAN_5_2024 : 0 <= JSDate.YearFromTime JAN_5_2024 <= 9999.
Proof. change (JSDate.YearFromTime JAN_5_2024) with 2024. lia. Defined.

Lemma convertToJekyllFileName_pipeline_witness :
  is_file_name spaced_name
  /\ 0 <= JSDate.YearFromTime JAN_5_2024 <= 9999
  /\ convertToJekyllFileName JAN_5_2024 spaced_name
     = utc_date_stamp JAN_5_2024 ++ js "-"
         ++ collapse_runs JS.is_whitespace (js "-")
              (delete_all JS.is_hash_or_question (strip_extension spaced_name))
         ++ js ".md".
Proof.
  split; [exact spaced_name_is_file_name|].
  split; [exact year_of_JAN_5_2024|].
  exact (proj1 (convertToJekyllFileName_pipeline JAN_5_2024 spaced_name
                  spaced_name_is_file_name year_of_JAN_5_2024)).
Defined.

(** C1 as stated fails in the year 10000: [toISOString] switches to the
    expanded year [+010000], so the result starts with no [YYYY-MM-DD]. *)
Lemma convertToJekyllFileName_year_10000 :
  is_file_name (js "a.md")
  /\ convertToJekyllFileName JAN_1_10000 (js "a.md") = js "+010000-01-01-a.md"
  /\ convertToJekyllFileName JAN_1_10000 (js "a.md")
     <> utc_date_stamp JAN_1_10000 ++ js "-"
          ++ collapse_runs JS.is_whitespace (js "-")
               (delete_all JS.is_hash_or_question (strip_extension (js "a.md")))
          ++ js ".md"
  /\ forall d title,
       is_YYYY_MM_DD d = true ->
       convertToJekyllFileName JAN_1_10000 (js "a.md") <> d ++ js "-" ++ title ++ js ".md".
Proof.
  assert (convertToJekyllFileName JAN_1_10000 (js "a.md") = js "+010000-01-01-a.md")
    as E by (vm_compute; reflexivity).
  split; [apply (bool_decide_unpack _); vm_compute; reflexivity|].
  split; [exact E|]. rewrite E. split.
  - vm_compute. discriminate.
  - intros d title Hd Heq. symmetry in Heq.
    apply (YYYY_MM_DD_starts_with_digit _ _ _ _ Hd) in Heq. discriminate Heq.
Qed.

(** C7: whatever the source name and the date, the dated transform's result
    ends in [.md], and that [.md] is its extension: its last dot is the one
    three code units before the end. *)
Theorem convertToJekyllFileName_md_suffix now fileName :
  js ".md" `suffix_of` convertToJekyllFileName now fileName
  /\ last_dot (convertToJekyllFileName now fileName)
     = Some (length (convertToJekyllFileName now fileName) - 3)%nat.
Proof.
  unfold convertToJekyllFileName.
  pose (stem := isoDate now ++ js "-"
                  ++ sanitizeTitle (Path.name (Path.parse fileName))).
  replace (isoDate now ++ js "-" ++ sanitizeTitle (Path.name (Path.parse fileName)) ++ js ".md")
    with (stem ++ js ".md") by (subst stem; rewrite <- !app_assoc; reflexivity).
  split; [exists stem; reflexivity|].
  rewrite length_app. simpl length.
  replace (length stem + 3 - 3)%nat with (length stem) by lia.
  clear. induction stem as [|c stem IH]; [reflexivity|].
  simpl. simpl in IH. rewrite IH. reflexivity.
Qed.

Example convert_other_extensions :
  convertToJekyllFileName JAN_5_2024 (js "post.markdown") = js "2024-01-05-post.md"
  /\ convertToJekyllFileName JAN_5_2024 (js "post.txt") = js "2024-01-05-post.md"
  /\ convertToJekyllFileName JAN_5_2024 (js "post") = js "2024-01-05-post.md".
Proof. repeat split; vm_compute; reflexivity. Qed.

(** With an empty title the result is the date part and [-.md], in any
    year. *)
Lemma convertToJekyllFileName_no_title now fileName :
  sanitizeTitle (Path.name (Path.parse fileName)) = [] ->
  convertToJekyllFileName now fileName = isoDate now ++ js "-.md".
Proof. intros Hempty. unfold convertToJekyllFileName. rewrite Hempty. reflexivity. Qed.

(** C8, as amended: when the name's base is empty after sanitization and
    the UTC year lies in 0..9999, the dated transform returns the stamp
    [YYYY-MM-DD] followed by [-.md]. *)
Theorem convertToJekyllFileName_empty_title now fileName :
  0 <= JSDate.YearFromTime now <= 9999 ->
  sanitizeTitle (Path.name (Path.parse fileName)) = [] ->
  convertToJekyllFileName now fileName = utc_date_stamp now ++ js "-.md"
  /\ is_YYYY_MM_DD (utc_date_stamp now) = true.
Proof.
  intros Hyear Hempty. split; [|apply utc_date_stamp_shape, Hyear].
  rewrite (convertToJekyllFileName_no_title _ _ Hempty),
    (isoDate_four_digit_year _ Hyear). reflexivity.
Qed.

Lemma collapse_runs_nil p rep s :
  rep <> [] -> collapse_runs p rep s = [] -> s = [].
Proof.
  intros Hrep. induction s as [|c s IH]; [reflexivity|].
  simpl. destruct (p c); [|discriminate].
  destruct s as [|c' s]; [contradiction|].
  destruct (p c').
  - intros H. specialize (IH H). discriminate IH.
  - intros H. apply app_eq_nil in H as [H _]. contradiction.
Qed.

Lemma delete_all_nil p s :
  delete_all p s = [] <-> Forall (fun c => p c = true) s.
Proof.
  induction s as [|c s IH]; simpl.
  - split; [constructor|reflexivity].
  - destruct (p c) eqn:Hc.
    + rewrite IH. split; [constructor; assumption|].
      intros H. apply Forall_cons in H as [_ H]. exact H.
    + split; [discriminate|]. intros H. apply Forall_cons in H as [H _]. congruence.
Qed.

(** The base names that sanitize to the empty string are those made of
    [#] and [?] only. *)
Lemma sanitizeTitle_empty title :
  sanitizeTitle title = [] <-> Forall (fun c => JS.is_hash_or_question c = true) title.
Proof.
  unfold sanitizeTitle, removeDisallowed.
  rewrite replace_all_Plus_collapse, replace_all_Class_delete, <- delete_all_nil.
  split.
  - apply collapse_runs_nil. discriminate.
  - intros ->. reflexivity.
Qed.

(** The theorem at the name [#?.md] on 2024-01-05. *)
Lemma convertToJekyllFileName_empty_title_witness :
  0 <= JSDate.YearFromTime JAN_5_2024 <= 9999
  /\ sanitizeTitle (Path.name (Path.parse (js "#?.md"))) = []
  /\ convertToJekyllFileName JAN_5_2024 (js "#?.md")
     = utc_date_stamp JAN_5_2024 ++ js "-.md".
Proof.
  split; [exact year_of_JAN_5_2024|]. split; [reflexivity|].
  exact (proj1 (convertToJekyllFileName_empty_title JAN_5_2024 (js "#?.md")
                  year_of_JAN_5_2024 eq_refl)).
Defined.

(** C8 as stated fails in the year 10000, for the same reason as C1. *)
Lemma convertToJekyllFileName_empty_title_year_10000 :
  sanitizeTitle (Path.name (Path.parse (js "#?.md"))) = []
  /\ convertToJekyllFileName JAN_1_10000 (js "#?.md") = js "+010000-01-01-.md"
  /\ forall d,
       is_YYYY_MM_DD d = true ->
       convertToJekyllFileName JAN_1_10000 (js "#?.md") <> d ++ js "-.md".
Proof.
  assert (convertToJekyllFileName JAN_1_10000 (js "#?.md") = js "+010000-01-01-.md")
    as E by (vm_compute; reflexivity).
  split; [reflexivity|]. split; [exact E|]. rewrite E.
  intros d Hd Heq. symmetry in Heq.
  apply (YYYY_MM_DD_starts_with_digit _ _ _ _ Hd) in Heq. discriminate Heq.
Qed.

(** C9: deleting every [#] and [?] twice is deleting them once; the
    replacement [/[#?]/g -> ''] is that deletion. *)
Theorem removeDisallowed_idempotent title :
  removeDisallowed (removeDisallowed title) = removeDisallowed title
  /\ removeDisallowed title = delete_all JS.is_hash_or_question title.
Proof.
  unfold removeDisallowed. rewrite !replace_all_Class_delete.
  split; [apply delete_all_idempotent|reflexivity].
Qed.

(** C10: the dated transform's result holds no white space, no [#] and no
    [?], whatever the source name and the date. *)
Theorem convertToJekyllFileName_allowed_chars now fileName :
  Forall allowed_char (convertToJekyllFileName now fileName).
Proof.
  unfold convertToJekyllFileName.
  apply Forall_app; split.
  { eapply Forall_impl; [apply isoDate_stamp_chars|apply stamp_char_allowed]. }
  constructor; [repeat split; discriminate|].
  apply Forall_app; split; [apply sanitizeTitle_allowed|].
  repeat constructor; discriminate.
Qed.

(** ** The folder list *)

Lemma indexOf_head first rest : SettingTab.indexOf (first :: rest) first = Some O.
Proof. simpl. rewrite bool_decide_true; reflexivity. Qed.

Lemma onDeleteClick_cons first rest :
  SettingTab.onDeleteClick (first :: rest) = rest.
Proof.
  unfold SettingTab.onDeleteClick. cbn [lookup list_lookup].
  rewrite indexOf_head. reflexivity.
Qed.

Lemma onAddClick_length newPath folders :
  (length folders <= length (SettingTab.onAddClick newPath folders))%nat.
Proof.
  unfold SettingTab.onAddClick. destruct (_ && _); [|lia].
  rewrite length_app. lia.
Qed.

Lemma onDropdownChange_length value folders :
  (length folders <= length (SettingTab.onDropdownChange value folders))%nat.
Proof. destruct folders; simpl; lia. Qed.

Lemma run_actions_without_removal actions folders :
  RemovePath ∉ actions ->
  (length folders <= length (run_actions actions folders))%nat.
Proof.
  revert folders. induction actions as [|a actions IH]; intros folders Hno.
  - reflexivity.
  - apply not_elem_of_cons in Hno as [Ha Hno]. simpl.
    etransitivity; [|apply IH, Hno].
    destruct a as [typed| |value]; [apply onAddClick_length|congruence|
                                     apply onDropdownChange_length].
Qed.

(** C3, as amended: the default list is not empty; adding a path or choosing
    one in a dropdown never empties a list; the delete button removes the
    entry at index 0, so a list of one entry becomes empty; any sequence of
    actions without a removal leaves a non-empty list non-empty. *)
Theorem projectFolders_nonempty_without_removal :
  projectFolders DEFAULT_SETTINGS <> []
  /\ (forall typed folders,
        folders <> [] -> apply_action (AddPath typed) folders <> [])
  /\ (forall value folders, apply_action (SelectPath value) folders <> [])
  /\ (forall first rest, apply_action RemovePath (first :: rest) = rest)
  /\ (forall actions folders,
        folders <> [] -> RemovePath ∉ actions ->
        run_actions actions folders <> []).
Proof.
  split; [discriminate|]. split; [|split; [|split]].
  - intros typed folders Hne Hempty.
    pose proof (onAddClick_length (SettingTab.onNewPathChange typed) folders) as H.
    simpl in Hempty. rewrite Hempty in H. destruct folders; [congruence|simpl in H; lia].
  - intros value [|]; discriminate.
  - intros first rest. apply onDeleteClick_cons.
  - intros actions folders Hne Hno Hempty.
    pose proof (run_actions_without_removal actions folders Hno) as H.
    rewrite Hempty in H. destruct folders; [congruence|simpl in H; lia].
Qed.

(** C3 as stated fails: the delete button empties the default list, and
    also a list that was added to. *)
Lemma projectFolders_emptied_by_removal :
  run_actions [RemovePath] (projectFolders DEFAULT_SETTINGS) = []
  /\ run_actions [AddPath (js "/blog"); RemovePath; RemovePath]
       (projectFolders DEFAULT_SETTINGS) = [].
Proof. split; vm_compute; reflexivity. Qed.

(** ** The validator *)

Lemma isProjectPathValid_found settings w p rest :
  projectFolders settings = p :: rest -> path_exists w p = true ->
  isProjectPathValid settings w = (inr true, (w, [])).
Proof.
  intros Hfolders Hexists. run_M. rewrite Hfolders. cbn [lookup list_lookup].
  unfold path_exists in Hexists. rewrite Hexists. reflexivity.
Qed.

Lemma isProjectPathValid_missing settings w p rest :
  projectFolders settings = p :: rest -> path_exists w p = false ->
  isProjectPathValid settings w
  = (inr false, (w, [ErrorModalOpen MODAL_MESSAGE])).
Proof.
  intros Hfolders Hexists. run_M. rewrite Hfolders. cbn [lookup list_lookup].
  unfold path_exists in Hexists. rewrite Hexists. reflexivity.
Qed.

Lemma isProjectPathValid_no_folder settings w :
  projectFolders settings = [] ->
  isProjectPathValid settings w
  = (inr false, (w, [ErrorModalOpen MODAL_MESSAGE])).
Proof. intros Hfolders. run_M. rewrite Hfolders. reflexivity. Qed.

(** C4, as amended: for a non-empty folder list the validator answers
    [true] exactly when the path at index 0 exists, and then does nothing
    else; when the path is missing it answers [false] (no error value, no
    path) after opening the error modal with its fixed text, the disk is
    untouched, and each command stops there: no read, no write, no notice. *)
Theorem isProjectPathValid_contract settings w p rest :
  projectFolders settings = p :: rest ->
  world_after (isProjectPathValid settings w) = w
  /\ (outcome (isProjectPathValid settings w) = inr true
      <-> path_exists w p = true)
  /\ (path_exists w p = true -> events (isProjectPathValid settings w) = [])
  /\ (path_exists w p = false ->
      outcome (isProjectPathValid settings w) = inr false
      /\ events (isProjectPathValid settings w) = [ErrorModalOpen MODAL_MESSAGE]
      /\ forall path_resolve view_file file,
           push_md_command path_resolve settings view_file w
           = (inr tt, (w, [ErrorModalOpen MODAL_MESSAGE]))
           /\ file_menu_push path_resolve settings file w
              = (inr tt, (w, [ErrorModalOpen MODAL_MESSAGE]))
           /\ validate_path_command settings w
              = (inr tt, (w, [ErrorModalOpen MODAL_MESSAGE]))).
Proof.
  intros Hfolders. destruct (path_exists w p) eqn:Hexists.
  - rewrite (isProjectPathValid_found _ _ _ _ Hfolders Hexists).
    repeat split; try reflexivity; try discriminate.
  - pose proof (isProjectPathValid_missing _ _ _ _ Hfolders Hexists) as Hrun.
    rewrite Hrun. repeat split; try reflexivity; try discriminate.
    + unfold push_md_command, mbind, M_bind, bind. rewrite Hrun. reflexivity.
    + unfold file_menu_push, mbind, M_bind, bind. rewrite Hrun. reflexivity.
    + unfold validate_path_command, mbind, M_bind, bind. rewrite Hrun. reflexivity.
Qed.

(** The theorem at the folder [/out], which exists in [example_world]. *)
Lemma out_exists : path_exists example_world (js "/out") = true.
Proof. vm_compute. reflexivity. Defined.

Lemma isProjectPathValid_contract_witness :
  projectFolders (settings_with [js "/out"] false) = [js "/out"]
  /\ (outcome (isProjectPathValid (settings_with [js "/out"] false) example_world)
      = inr true
      <-> path_exists example_world (js "/out") = true).
Proof.
  split; [reflexivity|].
  exact (proj1 (proj2 (isProjectPathValid_contract
                         (settings_with [js "/out"] false) example_world
                         (js "/out") [] eq_refl))).
Defined.

(** C4 as stated fails: for the missing folder [/nonexistent] the
    specification's validator yields the error that carries the path, while
    the code answers the boolean [false], opens a modal (an effect) whose
    text does not hold the path, and does the very same for another missing
    path, so that no reading of its answer recovers the path. *)
Lemma isProjectPathValid_carries_no_path :
  spec_validate example_world [js "/nonexistent"]
  = Some (InvalidPathError (js "/nonexistent"))
  /\ isProjectPathValid (settings_with [js "/nonexistent"] false) example_world
     = (inr false, (example_world, [ErrorModalOpen MODAL_MESSAGE]))
  /\ includes_text MODAL_MESSAGE (js "/nonexistent") = false
  /\ isProjectPathValid (settings_with [js "/missing"] false) example_world
     = isProjectPathValid (settings_with [js "/nonexistent"] false) example_world
  /\ ~ (exists decode : (Error + bool) * (World * list event) -> validation,
         forall p,
           path_exists example_world p = false ->
           decode (isProjectPathValid (settings_with [p] false) example_world)
           = InvalidPathError p).
Proof.
  assert (forall p, path_exists example_world p = false ->
            isProjectPathValid (settings_with [p] false) example_world
            = (inr false, (example_world, [ErrorModalOpen MODAL_MESSAGE]))) as Hmiss.
  { intros p Hp. apply (isProjectPathValid_missing _ _ p []); [reflexivity|exact Hp]. }
  assert (path_exists example_world (js "/nonexistent") = false) as H1
    by (vm_compute; reflexivity).
  assert (path_exists example_world (js "/missing") = false) as H2
    by (vm_compute; reflexivity).
  split; [unfold spec_validate; rewrite H1; reflexivity|].
  split; [apply Hmiss, H1|]. split; [vm_compute; reflexivity|].
  split; [rewrite (Hmiss _ H1), (Hmiss _ H2); reflexivity|].
  intros [decode Hdecode].
  pose proof (Hdecode _ H1) as D1. pose proof (Hdecode _ H2) as D2.
  rewrite (Hmiss _ H1) in D1. rewrite (Hmiss _ H2) in D2.
  rewrite D1 in D2. discriminate D2.
Qed.

(** ** The push *)

Section Push.
Variable path_resolve : jsstring -> jsstring -> jsstring.

(** C5: a push whose read fails writes nothing and leaves the disk as it
    was; a failed read and a failed write are each reported by one notice,
    the failure prefix followed by the error's message; in every case the
    push reads once, tries at most one write, shows exactly one notice and
    throws nothing. *)
Theorem pushFile_failure_report settings file targetPath w :
  (forall e,
     vault w file = inl e ->
     world_after (pushFile path_resolve settings file targetPath w) = w
     /\ file_writes (events (pushFile path_resolve settings file targetPath w)) = []
     /\ notices (events (pushFile path_resolve settings file targetPath w))
        = [PUSH_FAILURE_PREFIX ++ message e])
  /\ (forall content p e,
        vault w file = inr content ->
        push_target path_resolve settings file targetPath (clock w) = Some p ->
        write_fault w p = Some e ->
        file_writes (events (pushFile path_resolve settings file targetPath w))
        = [(p, content)]
        /\ notices (events (pushFile path_resolve settings file targetPath w))
           = [PUSH_FAILURE_PREFIX ++ message e])
  /\ outcome (pushFile path_resolve settings file targetPath w) = inr tt
  /\ length (notices (events (pushFile path_resolve settings file targetPath w))) = 1%nat
  /\ vault_reads (events (pushFile path_resolve settings file targetPath w)) = [file]
  /\ (length (file_writes (events (pushFile path_resolve settings file targetPath w)))
      <= 1)%nat.
Proof.
  split; [|split].
  - intros e Hread. rewrite (pushFile_read_fails _ _ _ _ _ _ Hread).
    repeat split.
  - intros content p e Hread Htarget Hwrite.
    rewrite (pushFile_write_fails _ _ _ _ _ _ _ _ Hread Htarget Hwrite).
    repeat split.
  - destruct (vault w file) as [e|content] eqn:Hread.
    { rewrite (pushFile_read_fails _ _ _ _ _ _ Hread). repeat split. simpl. lia. }
    destruct (push_target path_resolve settings file targetPath (clock w))
      as [p|] eqn:Htarget.
    2: { rewrite (pushFile_no_folder _ _ _ _ _ _ Hread Htarget).
         repeat split. simpl. lia. }
    destruct (write_fault w p) as [e|] eqn:Hwrite.
    + rewrite (pushFile_write_fails _ _ _ _ _ _ _ _ Hread Htarget Hwrite).
      repeat split; simpl; lia.
    + rewrite (pushFile_succeeds _ _ _ _ _ _ _ Hread Htarget Hwrite).
      repeat split; simpl; lia.
Qed.

(** C6: two pushes of one document that resolve to the same path [p], on a
    disk that takes writes at [p], both end with the success notice, and
    then the file at [p] holds what the second push read; nothing else on
    the disk differs from before, whether or not [p] held a file, and the
    second push does nothing but log, read, write and notify. *)
Theorem pushFile_twice_overwrites settings file targetPath1 targetPath2 w
  vault2 clock2 content1 content2 p :
  vault w file = inr content1 ->
  vault2 file = inr content2 ->
  push_target path_resolve settings file targetPath1 (clock w) = Some p ->
  push_target path_resolve settings file targetPath2 clock2 = Some p ->
  write_fault w p = None ->
  notices (events (pushFile path_resolve settings file targetPath1 w))
  = [PUSH_SUCCESS_PREFIX ++ p]
  /\ notices (events (pushFile path_resolve settings file targetPath2
                        (later (world_after (pushFile path_resolve settings file
                                               targetPath1 w)) vault2 clock2)))
     = [PUSH_SUCCESS_PREFIX ++ p]
  /\ files (world_after (pushFile path_resolve settings file targetPath2
                           (later (world_after (pushFile path_resolve settings file
                                                  targetPath1 w)) vault2 clock2)))
     !! p = Some content2
  /\ files (world_after (pushFile path_resolve settings file targetPath2
                           (later (world_after (pushFile path_resolve settings file
                                                  targetPath1 w)) vault2 clock2)))
     = <[p := content2]> (files w)
  /\ events (pushFile path_resolve settings file targetPath2
               (later (world_after (pushFile path_resolve settings file
                                      targetPath1 w)) vault2 clock2))
     = [ConsoleLog targetPath2; VaultRead file; FileWrite p content2;
        Notice (PUSH_SUCCESS_PREFIX ++ p)].
Proof.
  intros Hread1 Hread2 Htarget1 Htarget2 Hwrite.
  rewrite (pushFile_succeeds _ _ _ _ _ _ _ Hread1 Htarget1 Hwrite).
  change (world_after (inr tt, (written w p content1, ?t)))
    with (written w p content1).
  rewrite (pushFile_succeeds _ settings file targetPath2
             (later (written w p content1) vault2 clock2) content2 p
             Hread2 Htarget2 Hwrite).
  cbn [world_after events snd fst files written later].
  repeat split.
  - apply lookup_insert_eq.
  - apply insert_insert_eq.
Qed.

(** Whatever [pushFile] writes, it writes at the push's target. *)
Lemma pushFile_writes settings file targetPath w p data :
  (p, data) ∈ file_writes (events (pushFile path_resolve settings file targetPath w)) ->
  push_target path_resolve settings file targetPath (clock w) = Some p
  /\ vault w file = inr data.
Proof.
  destruct (vault w file) as [e|content] eqn:Hread.
  { rewrite (pushFile_read_fails _ _ _ _ _ _ Hread). intros H. inversion H. }
  destruct (push_target path_resolve settings file targetPath (clock w))
    as [q|] eqn:Htarget.
  2: { rewrite (pushFile_no_folder _ _ _ _ _ _ Hread Htarget). intros H. inversion H. }
  destruct (write_fault w q) as [e|] eqn:Hwrite.
  - rewrite (pushFile_write_fails _ _ _ _ _ _ _ _ Hread Htarget Hwrite).
    intros H%list_elem_of_singleton. injection H as -> ->. split; reflexivity.
  - rewrite (pushFile_succeeds _ _ _ _ _ _ _ Hread Htarget Hwrite).
    intros H%list_elem_of_singleton. injection H as -> ->. split; reflexivity.
Qed.

(** A command whose folder exists pushes to the file's name resolved in
    that folder. *)
Lemma push_md_command_valid settings file w folder rest :
  projectFolders settings = folder :: rest -> path_exists w folder = true ->
  push_md_command path_resolve settings (Some file) w
  = pushFile path_resolve settings file (path_resolve folder (name file)) w.
Proof.
  intros Hfolders Hexists.
  unfold push_md_command, resolve_in_folder, mbind, M_bind, bind, mret, M_ret, ret.
  rewrite (isProjectPathValid_found _ _ _ _ Hfolders Hexists), Hfolders.
  cbn [negb lookup list_lookup].
  destruct (pushFile _ _ _ _ w) as [r [w2 t2]]. reflexivity.
Qed.

Lemma file_menu_push_valid settings file w folder rest :
  projectFolders settings = folder :: rest -> path_exists w folder = true ->
  file_menu_push path_resolve settings file w
  = pushFile path_resolve settings file (path_resolve folder (name file)) w.
Proof.
  intros Hfolders Hexists.
  unfold file_menu_push, resolve_in_folder, mbind, M_bind, bind, mret, M_ret, ret.
  rewrite (isProjectPathValid_found _ _ _ _ Hfolders Hexists), Hfolders.
  cbn [negb lookup list_lookup].
  destruct (pushFile _ _ _ _ w) as [r [w2 t2]]. reflexivity.
Qed.

Lemma push_md_command_invalid settings view_file w :
  (forall folder, projectFolders settings !! O = Some folder ->
                  path_exists w folder = false) ->
  push_md_command path_resolve settings view_file w
  = (inr tt, (w, [ErrorModalOpen MODAL_MESSAGE])).
Proof.
  intros Hmissing. unfold push_md_command, mbind, M_bind, bind.
  destruct (projectFolders settings) as [|folder rest] eqn:Hfolders.
  - rewrite (isProjectPathValid_no_folder _ _ Hfolders). reflexivity.
  - rewrite (isProjectPathValid_missing _ _ _ _ Hfolders (Hmissing _ eq_refl)).
    reflexivity.
Qed.

Lemma file_menu_push_invalid settings file w :
  (forall folder, projectFolders settings !! O = Some folder ->
                  path_exists w folder = false) ->
  file_menu_push path_resolve settings file w
  = (inr tt, (w, [ErrorModalOpen MODAL_MESSAGE])).
Proof.
  intros Hmissing. unfold file_menu_push, mbind, M_bind, bind.
  destruct (projectFolders settings) as [|folder rest] eqn:Hfolders.
  - rewrite (isProjectPathValid_no_folder _ _ Hfolders). reflexivity.
  - rewrite (isProjectPathValid_missing _ _ _ _ Hfolders (Hmissing _ eq_refl)).
    reflexivity.
Qed.

(** With dated mode off, [pushFile] never looks at the clock. *)
Lemma pushFile_undated_ignores_clock settings file targetPath w clock' :
  convertToJekyllFormat settings = false ->
  outcome (pushFile path_resolve settings file targetPath (later w (vault w) clock'))
  = outcome (pushFile path_resolve settings file targetPath w)
  /\ events (pushFile path_resolve settings file targetPath (later w (vault w) clock'))
     = events (pushFile path_resolve settings file targetPath w)
  /\ files (world_after (pushFile path_resolve settings file targetPath
                           (later w (vault w) clock')))
     = files (world_after (pushFile path_resolve settings file targetPath w)).
Proof.
  intros Hmode.
  assert (forall now, push_target path_resolve settings file targetPath now
                      = Some targetPath) as Htarget
    by (intros now; unfold push_target; rewrite Hmode; reflexivity).
  destruct (vault w file) as [e|content] eqn:Hread.
  { rewrite (pushFile_read_fails _ _ _ _ w _ Hread).
    rewrite (pushFile_read_fails _ _ _ _ (later w (vault w) clock') _ Hread).
    repeat split. }
  destruct (write_fault w targetPath) as [e|] eqn:Hwrite.
  - rewrite (pushFile_write_fails _ _ _ _ w _ _ _ Hread (Htarget _) Hwrite).
    rewrite (pushFile_write_fails _ _ _ _ (later w (vault w) clock') _ _ _
               Hread (Htarget _) Hwrite).
    repeat split.
  - rewrite (pushFile_succeeds _ _ _ _ w _ _ Hread (Htarget _) Hwrite).
    rewrite (pushFile_succeeds _ _ _ _ (later w (vault w) clock') _ _
               Hread (Htarget _) Hwrite).
    repeat split.
Qed.

(** C2: with dated mode off, the path a push writes is the source file's
    own name resolved in the first folder, for the command and for the menu
    item alike, and the push does not depend on the date: the transform is
    not applied. *)
Theorem push_keeps_name_when_not_dated settings file w :
  convertToJekyllFormat settings = false ->
  (forall p data,
     (p, data) ∈ file_writes (events (push_md_command path_resolve settings
                                        (Some file) w))
     \/ (p, data) ∈ file_writes (events (file_menu_push path_resolve settings
                                           file w)) ->
     exists folder,
       projectFolders settings !! O = Some folder
       /\ p = path_resolve folder (name file))
  /\ (forall folder content,
        projectFolders settings !! O = Some folder ->
        path_exists w folder = true ->
        vault w file = inr content ->
        write_fault w (path_resolve folder (name file)) = None ->
        file_writes (events (push_md_command path_resolve settings (Some file) w))
        = [(path_resolve folder (name file), content)]
        /\ files (world_after (push_md_command path_resolve settings (Some file) w))
           !! path_resolve folder (name file) = Some content)
  /\ (forall targetPath clock',
        events (pushFile path_resolve settings file targetPath
                  (later w (vault w) clock'))
        = events (pushFile path_resolve settings file targetPath w)
        /\ files (world_after (pushFile path_resolve settings file targetPath
                                 (later w (vault w) clock')))
           = files (world_after (pushFile path_resolve settings file targetPath w))).
Proof.
  intros Hmode.
  assert (forall targetPath now,
            push_target path_resolve settings file targetPath now = Some targetPath)
    as Htarget
    by (intros targetPath now; unfold push_target; rewrite Hmode; reflexivity).
  split; [|split].
  - intros p data Hwritten.
    destruct (projectFolders settings) as [|folder rest] eqn:Hfolders.
    { rewrite push_md_command_invalid, file_menu_push_invalid in Hwritten
        by (intros folder; rewrite Hfolders; discriminate).
      destruct Hwritten as [H|H]; inversion H. }
    destruct (path_exists w folder) eqn:Hexists.
    + rewrite (push_md_command_valid _ _ _ _ _ Hfolders Hexists),
        (file_menu_push_valid _ _ _ _ _ Hfolders Hexists) in Hwritten.
      assert ((p, data) ∈ file_writes
                (events (pushFile path_resolve settings file
                           (path_resolve folder (name file)) w))) as H
        by (destruct Hwritten; assumption).
      apply pushFile_writes in H as [H _]. rewrite Htarget in H.
      injection H as <-. exists folder. split; reflexivity.
    + rewrite push_md_command_invalid, file_menu_push_invalid in Hwritten
        by (intros f; rewrite Hfolders; intros [= <-]; exact Hexists).
      destruct Hwritten as [H|H]; inversion H.
  - intros folder content Hfolder Hexists Hread Hwrite.
    destruct (projectFolders settings) as [|folder' rest] eqn:Hfolders;
      [discriminate|]. injection Hfolder as ->.
    rewrite (push_md_command_valid _ _ _ _ _ Hfolders Hexists).
    rewrite (pushFile_succeeds _ _ _ _ _ _ _ Hread (Htarget _ _) Hwrite).
    split; [reflexivity|]. apply lookup_insert_eq.
  - intros targetPath clock'.
    apply (pushFile_undated_ignores_clock settings file targetPath w clock' Hmode).
Qed.

End Push.

(** A failed read and a refused write, each reported by one notice. *)
Example pushFile_unreadable :
  pushFile join_path (settings_with [js "/out"] false) my_note
    (js "/out/My Note.md") unreadable_world
  = (inr tt,
     (unreadable_world,
      [ConsoleLog (js "/out/My Note.md"); VaultRead my_note;
       Notice (PUSH_FAILURE_PREFIX ++ js "ENOENT: no such file or directory")])).
Proof.
  apply (pushFile_read_fails join_path _ _ _ _
           {| message := js "ENOENT: no such file or directory" |}).
  reflexivity.
Qed.

Example pushFile_refused :
  pushFile join_path (settings_with [js "/out"] true) my_note
    (js "/out/My Note.md") read_only_world
  = (inr tt,
     (read_only_world,
      [ConsoleLog (js "/out/My Note.md"); VaultRead my_note;
       FileWrite (js "/out/2024-03-01-My-Note.md") (js "hello");
       Notice (PUSH_FAILURE_PREFIX ++ js "EACCES: permission denied")])).
Proof.
  apply (pushFile_write_fails join_path _ _ _ _ (js "hello")
           (js "/out/2024-03-01-My-Note.md")
           {| message := js "EACCES: permission denied" |}); reflexivity.
Qed.

(** The specification's end-to-end example, dated mode off: [My Note.md]
    with the text [hello] lands in [/out/My Note.md]. *)
Lemma push_keeps_name_when_not_dated_witness :
  convertToJekyllFormat (settings_with [js "/out"] false) = false
  /\ files (world_after (push_md_command join_path
                           (settings_with [js "/out"] false) (Some my_note)
                           example_world))
     !! js "/out/My Note.md" = Some (js "hello").
Proof.
  split; [reflexivity|].
  exact (proj2 (proj1 (proj2 (push_keeps_name_when_not_dated join_path
                                (settings_with [js "/out"] false) my_note
                                example_world eq_refl))
                  (js "/out") (js "hello") eq_refl out_exists eq_refl eq_refl)).
Defined.

(** The same document pushed twice on 2024-03-01 in dated mode, edited in
    between: [/out/2024-03-01-My-Note.md] ends up with the second text. *)
Lemma pushFile_twice_overwrites_witness :
  push_target join_path (settings_with [js "/out"] true) my_note
    (js "/out/My Note.md") (clock example_world)
  = Some (js "/out/2024-03-01-My-Note.md")
  /\ files (world_after
              (pushFile join_path (settings_with [js "/out"] true) my_note
                 (js "/out/My Note.md")
                 (later (world_after
                           (pushFile join_path (settings_with [js "/out"] true)
                              my_note (js "/out/My Note.md") example_world))
                    (fun _ => inr (js "hello again")) (MAR_1_2024 + 1000))))
     !! js "/out/2024-03-01-My-Note.md" = Some (js "hello again").
Proof.
  split; [vm_compute; reflexivity|].
  exact (proj1 (proj2 (proj2
    (pushFile_twice_overwrites join_path (settings_with [js "/out"] true)
       my_note (js "/out/My Note.md") (js "/out/My Note.md") example_world
       (fun _ => inr (js "hello again")) (MAR_1_2024 + 1000)
       (js "hello") (js "hello again") (js "/out/2024-03-01-My-Note.md")
       eq_refl eq_refl eq_refl eq_refl eq_refl)))).
Defined.

(* ================================================================== *)
(** * Part V: further properties                                       *)
(* ================================================================== *)

(** ** More on the sanitized title *)

Lemma delete_all_clean p s :
  Forall (fun c => p c = false) s -> delete_all p s = s.
Proof.
  induction 1 as [|c s Hc _ IH]; simpl; [reflexivity|]. rewrite Hc, IH. reflexivity.
Qed.

Lemma allowed_char_classes c :
  allowed_char c <-> JS.is_hash_or_question c = false /\ JS.is_whitespace c = false.
Proof.
  unfold allowed_char, JS.is_hash_or_question.
  rewrite orb_false_iff, !N.eqb_neq. tauto.
Qed.

(** X1: the sanitizer leaves a title alone exactly when the title holds no
    white space, [#] or [?]; hence sanitizing twice is sanitizing once. *)
Theorem sanitizeTitle_fixpoints title :
  (sanitizeTitle title = title <-> Forall allowed_char title)
  /\ sanitizeTitle (sanitizeTitle title) = sanitizeTitle title.
Proof.
  assert (forall t, Forall allowed_char t -> sanitizeTitle t = t) as Hfix.
  { intros t Ht. unfold sanitizeTitle, removeDisallowed.
    rewrite replace_all_Plus_collapse, replace_all_Class_delete.
    rewrite delete_all_clean.
    - apply collapse_runs_clean. apply forallb_forall. intros c Hc.
      apply list_elem_of_In in Hc. rewrite Forall_forall in Ht.
      apply Ht, allowed_char_classes in Hc as [_ Hc]. rewrite Hc. reflexivity.
    - eapply Forall_impl; [exact Ht|]. intros c Hc.
      apply allowed_char_classes in Hc. tauto. }
  split; [split|].
  - intros <-. apply sanitizeTitle_allowed.
  - apply Hfix.
  - apply Hfix, sanitizeTitle_allowed.
Qed.

Lemma delete_all_length p s : (length (delete_all p s) <= length s)%nat.
Proof. induction s as [|c s IH]; simpl; [lia|]. destruct (p c); simpl; lia. Qed.

Lemma collapse_runs_length p c s :
  (length (collapse_runs p [c] s) <= length s)%nat.
Proof.
  induction s as [|c0 s IH]; simpl; [lia|].
  destruct (p c0); [|simpl; lia].
  destruct s as [|c1 s]; [simpl; lia|].
  destruct (p c1); simpl in *; lia.
Qed.

Lemma sanitizeTitle_length title :
  (length (sanitizeTitle title) <= length title)%nat.
Proof.
  unfold sanitizeTitle, removeDisallowed.
  rewrite replace_all_Plus_collapse, replace_all_Class_delete.
  etransitivity; [apply collapse_runs_length|apply delete_all_length].
Qed.

Lemma parse_name_length p : (length (Path.name (Path.parse p)) <= length p)%nat.
Proof.
  unfold Path.parse. destruct p as [|first rest]; [simpl; lia|].
  cbv zeta. cbn [Path.name].
  repeat match goal with |- context [if ?b then _ else _] => destruct b end;
    unfold JS.slice; rewrite ?length_take, ?length_drop; simpl; lia.
Qed.

(** X2: in the years 0..9999 the dated name is at most 14 code units longer
    than the source name: ten for the date, one hyphen, three for [.md]. *)
Theorem convertToJekyllFileName_length now fileName :
  0 <= JSDate.YearFromTime now <= 9999 ->
  (length (convertToJekyllFileName now fileName) <= length fileName + 14)%nat.
Proof.
  intros Hyear. unfold convertToJekyllFileName.
  rewrite (isoDate_four_digit_year _ Hyear).
  pose proof (utc_date_stamp_shape now Hyear) as Hshape.
  assert (length (utc_date_stamp now) = 10%nat) as Hlen.
  { destruct (utc_date_stamp now) as [|? l]; [discriminate|].
    do 9 (destruct l as [|? l]; [discriminate|]). destruct l; [reflexivity|discriminate]. }
  rewrite !length_app, Hlen. simpl length.
  pose proof (sanitizeTitle_length (Path.name (Path.parse fileName))).
  pose proof (parse_name_length fileName). lia.
Qed.

Lemma convertToJekyllFileName_length_witness :
  0 <= JSDate.YearFromTime JAN_5_2024 <= 9999
  /\ (length (convertToJekyllFileName JAN_5_2024 tagged_name)
      <= length tagged_name + 14)%nat.
Proof.
  split; [exact year_of_JAN_5_2024|].
  exact (convertToJekyllFileName_length JAN_5_2024 tagged_name year_of_JAN_5_2024).
Defined.

(** ** The date part names the UTC day *)

Section DayStamp.
Import JSDate.

(** The calendar fields are read off the day number alone. *)
Lemma YearFromTime_Day t1 t2 : Day t1 = Day t2 -> YearFromTime t1 = YearFromTime t2.
Proof. intros H. unfold YearFromTime. rewrite H. reflexivity. Qed.

Lemma MonthFromTime_Day t1 t2 : Day t1 = Day t2 -> MonthFromTime t1 = MonthFromTime t2.
Proof.
  intros H. unfold MonthFromTime, DayWithinYear, InLeapYear.
  rewrite H, (YearFromTime_Day _ _ H). reflexivity.
Qed.

Lemma DateFromTime_Day t1 t2 : Day t1 = Day t2 -> DateFromTime t1 = DateFromTime t2.
Proof.
  intros H. unfold DateFromTime. rewrite (MonthFromTime_Day _ _ H).
  unfold DayWithinYear, InLeapYear. rewrite H, (YearFromTime_Day _ _ H). reflexivity.
Qed.

(** Conversely year, month and day of the month give the day number back. *)
Lemma Day_of_fields t1 t2 :
  YearFromTime t1 = YearFromTime t2 ->
  MonthFromTime t1 = MonthFromTime t2 ->
  DateFromTime t1 = DateFromTime t2 ->
  Day t1 = Day t2.
Proof.
  intros Hy Hm Hd.
  assert (InLeapYear t1 = InLeapYear t2) as Hleap
    by (unfold InLeapYear; rewrite Hy; reflexivity).
  assert (DayWithinYear t1 = DayWithinYear t2) as Hwithin.
  { pose proof (MonthFromTime_range t2) as Hrange.
    unfold DateFromTime in Hd. rewrite Hm, Hleap in Hd.
    assert (MonthFromTime t2 = 0 \/ MonthFromTime t2 = 1 \/ MonthFromTime t2 = 2
            \/ MonthFromTime t2 = 3 \/ MonthFromTime t2 = 4 \/ MonthFromTime t2 = 5
            \/ MonthFromTime t2 = 6 \/ MonthFromTime t2 = 7 \/ MonthFromTime t2 = 8
            \/ MonthFromTime t2 = 9 \/ MonthFromTime t2 = 10 \/ MonthFromTime t2 = 11)
      as Hcases by lia.
    cbv zeta in Hd.
    repeat (destruct Hcases as [E|Hcases]; [rewrite E in Hd; lia|]).
    rewrite Hcases in Hd. lia. }
  unfold DayWithinYear in Hwithin. rewrite Hy in Hwithin. lia.
Qed.

End DayStamp.

Lemma padded_inj n m k :
  0 <= n -> 0 <= m ->
  JS.ToZeroPaddedDecimalString n k = JS.ToZeroPaddedDecimalString m k -> n = m.
Proof.
  intros Hn Hm H. rewrite <- (padded_value n k Hn), <- (padded_value m k Hm), H.
  reflexivity.
Qed.

Lemma padded_head_digit n k c rest :
  JS.ToZeroPaddedDecimalString n k = c :: rest -> is_digit c = true.
Proof.
  intros H. pose proof (padded_all_digits n k) as Hall. unfold all_digits in Hall.
  rewrite H in Hall. apply Forall_cons in Hall as [Hc _]. exact Hc.
Qed.

Lemma padded_nonempty n k : JS.ToZeroPaddedDecimalString n k <> [].
Proof.
  unfold JS.ToZeroPaddedDecimalString, JS.pad_start_zero, JS.decimal. intros H.
  apply app_eq_nil in H as [_ H]. revert H. apply digits_of_nonempty. lia.
Qed.

(** The year field tells the year: the two ISO forms differ in their first
    code unit, and each is one-to-one. *)
Lemma iso_year_inj y1 y2 : JSDate.iso_year y1 = JSDate.iso_year y2 -> y1 = y2.
Proof.
  unfold JSDate.iso_year.
  destruct ((0 <=? y1) && (y1 <=? 9999)) eqn:E1;
    destruct ((0 <=? y2) && (y2 <=? 9999)) eqn:E2;
    rewrite ?andb_true_iff, ?andb_false_iff, ?Z.leb_le, ?Z.leb_gt in *.
  - apply padded_inj; lia.
  - intros H. apply padded_head_digit in H.
    destruct (0 <? y2); discriminate H.
  - intros H. symmetry in H. apply padded_head_digit in H.
    destruct (0 <? y1); discriminate H.
  - intros H. injection H as Hsign Hdigits.
    apply padded_inj in Hdigits; try lia.
    destruct (0 <? y1) eqn:S1; destruct (0 <? y2) eqn:S2;
      rewrite ?Z.ltb_lt, ?Z.ltb_ge in *; try discriminate Hsign; lia.
Qed.

Lemma isoDate_Day now1 now2 :
  isoDate now1 = isoDate now2 <-> JSDate.Day now1 = JSDate.Day now2.
Proof.
  rewrite !isoDate_fields. split.
  - intros H.
    pose proof (MonthFromTime_range now1). pose proof (MonthFromTime_range now2).
    pose proof (DateFromTime_range now1). pose proof (DateFromTime_range now2).
    apply app_inj_2 in H as [Hy H].
    2: { simpl. rewrite !length_app. simpl.
         rewrite !padded_length by (simpl; lia). reflexivity. }
    injection H as H. apply app_inj_1 in H as [Hm H].
    2: { rewrite !padded_length by (simpl; lia). reflexivity. }
    injection H as Hd.
    apply iso_year_inj in Hy. apply padded_inj in Hm, Hd; try lia.
    apply Day_of_fields; [assumption|lia|assumption].
  - intros H.
    rewrite (YearFromTime_Day _ _ H), (MonthFromTime_Day _ _ H),
      (DateFromTime_Day _ _ H). reflexivity.
Qed.

(** X3: for one source name, two clock readings give the same dated name
    exactly when they fall on the same UTC day. *)
Theorem convertToJekyllFileName_same_day now1 now2 fileName :
  convertToJekyllFileName now1 fileName = convertToJekyllFileName now2 fileName
  <-> JSDate.Day now1 = JSDate.Day now2.
Proof.
  rewrite <- isoDate_Day. unfold convertToJekyllFileName. split.
  - intros H.
    rewrite !(app_assoc (isoDate _)) in H. apply app_inj_2 in H; [|reflexivity].
    destruct H as [H _]. apply app_inj_2 in H; [|reflexivity]. tauto.
  - intros ->. reflexivity.
Qed.

(** ** Names that differ in their extension only *)

Lemma last_dot_no_dot s : Path.CHAR_DOT ∉ s -> last_dot s = None.
Proof.
  induction s as [|c s IH]; [reflexivity|].
  intros H. apply not_elem_of_cons in H as [Hc Hs]. simpl. rewrite (IH Hs).
  apply N.eqb_neq in Hc. rewrite N.eqb_sym, Hc. reflexivity.
Qed.

Lemma last_dot_app_dot base e :
  Path.CHAR_DOT ∉ e -> last_dot (base ++ Path.CHAR_DOT :: e) = Some (length base).
Proof.
  intros He. induction base as [|c base IH]; simpl.
  - rewrite (last_dot_no_dot _ He). reflexivity.
  - rewrite IH. reflexivity.
Qed.

Lemma strip_extension_app base e :
  base <> [] -> base <> js "." -> Path.CHAR_DOT ∉ e ->
  strip_extension (base ++ Path.CHAR_DOT :: e) = base.
Proof.
  intros Hne Hdot He. unfold strip_extension. rewrite (last_dot_app_dot _ _ He).
  destruct base as [|c base]; [congruence|]. cbn [length].
  rewrite bool_decide_false.
  - rewrite take_app_length'; reflexivity.
  - intros H. destruct base as [|c' base].
    + cbn in H. injection H as -> _. apply Hdot. reflexivity.
    + cbn in H. injection H as _ _ H. destruct base; discriminate H.
Qed.

(** X4: the dated name does not depend on the source extension: for a base
    name other than [.] and any extension without a dot, the result is the
    date, a hyphen, the sanitized base and [.md]; so two names that differ
    in their extension only get the same dated name. *)
Theorem convertToJekyllFileName_ignores_extension now base e :
  base <> [] -> base <> js "." ->
  is_file_name base -> is_file_name e -> Path.CHAR_DOT ∉ e ->
  convertToJekyllFileName now (base ++ Path.CHAR_DOT :: e)
  = isoDate now ++ js "-" ++ sanitizeTitle base ++ js ".md".
Proof.
  intros Hne Hdot Hbase He Hnodot. unfold convertToJekyllFileName.
  rewrite parse_name_file_name.
  - rewrite (strip_extension_app _ _ Hne Hdot Hnodot). reflexivity.
  - unfold is_file_name in *. rewrite elem_of_app, elem_of_cons.
    intros [H|[H|H]]; [tauto|discriminate H|tauto].
Qed.

Lemma convertToJekyllFileName_ignores_extension_witness :
  convertToJekyllFileName JAN_5_2024 (js "post" ++ Path.CHAR_DOT :: js "markdown")
  = convertToJekyllFileName JAN_5_2024 (js "post" ++ Path.CHAR_DOT :: js "txt").
Proof.
  assert (forall s, bool_decide (is_file_name s) = true -> is_file_name s) as Hfile
    by (intros s; apply bool_decide_eq_true_1).
  assert (forall s : jsstring,
            bool_decide (Path.CHAR_DOT ∉ s) = true -> Path.CHAR_DOT ∉ s) as Hdot
    by (intros s; apply bool_decide_eq_true_1).
  etransitivity.
  - exact (convertToJekyllFileName_ignores_extension JAN_5_2024 (js "post")
             (js "markdown") ltac:(discriminate) ltac:(discriminate)
             (Hfile (js "post") eq_refl) (Hfile (js "markdown") eq_refl)
             (Hdot (js "markdown") eq_refl)).
  - symmetry.
    exact (convertToJekyllFileName_ignores_extension JAN_5_2024 (js "post")
             (js "txt") ltac:(discriminate) ltac:(discriminate)
             (Hfile (js "post") eq_refl) (Hfile (js "txt") eq_refl)
             (Hdot (js "txt") eq_refl)).
Defined.

(** ** [path.parse] on any path *)

Section ParseAnyPath.
Import Path.

Lemma scan_loop_scanned path start n st :
  0 <= start -> start + Z.of_nat n <= Z.of_nat (length path) ->
  scanning path (start + Z.of_nat n) st ->
  scanned path start (scan_loop path start n st).
Proof.
  intros Hstart. revert st. induction n as [|n IH]; intros st Hlen Hst.
  - simpl. destruct Hst as [Hpart [(Hend & _)|(Hm & Hrange & Hno & Hdot)]].
    + left. exact Hend.
    + right. unfold component_start. rewrite Hpart. simpl.
      rewrite Z.add_0_r in *. repeat split; try lia; assumption.
  - cbn [scan_loop]. unfold scan_step.
    set (i := start + Z.of_nat n) in *.
    assert (start + Z.of_nat (S n) = i + 1) as Ei by lia. rewrite Ei in Hst.
    destruct Hst as [Hpart Hst].
    destruct (JS.charCodeAt path i =? CHAR_FORWARD_SLASH)%N eqn:Hslash.
    + destruct (matchedSlash st) eqn:Hm; cbn [negb].
      * (* a trailing separator: go on *)
        apply IH; [lia|]. split; [exact Hpart|]. left.
        destruct Hst as [(He & _ & Hd)|(Hm' & _)]; [|congruence].
        repeat split; assumption.
      * (* the separator before the component: stop *)
        destruct Hst as [(_ & Hm' & _)|(_ & Hrange & Hno & Hdot)]; [congruence|].
        right. unfold component_start. cbn [startPart end_ startDot].
        assert ((i + 1 =? 0) = false) as -> by (apply Z.eqb_neq; lia).
        repeat split; try lia; assumption.
    + apply N.eqb_neq in Hslash. apply IH; [lia|].
      destruct Hst as [(Hend & Hm & Hdot)|(Hm & Hrange & Hno & Hdot)].
      * (* the component's last code unit *)
        rewrite Hend, Z.eqb_refl.
        cbn [startDot startPart end_ matchedSlash preDotState].
        rewrite Hdot, Z.eqb_refl. cbn [negb].
        assert (forall k, i <= k < i + 1 ->
                          JS.charCodeAt path k <> CHAR_FORWARD_SLASH) as Hno'
          by (intros k Hk; assert (k = i) as -> by lia; exact Hslash).
        destruct (JS.charCodeAt path i =? CHAR_DOT)%N;
          (split; [exact Hpart|]); right;
          cbn [startDot startPart end_ matchedSlash preDotState];
          (split; [reflexivity|]); (split; [lia|]); (split; [exact Hno'|]).
        -- right. lia.
        -- left. reflexivity.
      * assert ((end_ st =? -1) = false) as -> by (apply Z.eqb_neq; lia).
        assert (forall k, i <= k < end_ st ->
                          JS.charCodeAt path k <> CHAR_FORWARD_SLASH) as Hno'.
        { intros k Hk. destruct (Z.eq_dec k i) as [->|]; [exact Hslash|].
          apply Hno. lia. }
        assert (startDot st = -1 \/ i <= startDot st < end_ st) as Hdot'
          by (destruct Hdot; [left; assumption|right; lia]).
        destruct (JS.charCodeAt path i =? CHAR_DOT)%N.
        -- destruct (startDot st =? -1) eqn:Hsd.
           ++ split; [exact Hpart|]. right.
              cbn [startDot startPart end_ matchedSlash preDotState].
              split; [exact Hm|]. split; [lia|]. split; [exact Hno'|]. right. lia.
           ++ destruct (negb (preDotState st =? 1));
                (split; [exact Hpart|]); right;
                cbn [startDot startPart end_ matchedSlash preDotState];
                (split; [exact Hm|]); (split; [lia|]); (split; [exact Hno'|]);
                exact Hdot'.
        -- destruct (negb (startDot st =? -1));
             (split; [exact Hpart|]); right;
             cbn [startDot startPart end_ matchedSlash preDotState];
             (split; [exact Hm|]); (split; [lia|]); (split; [exact Hno'|]);
             exact Hdot'.
Qed.

Lemma slice_no_slash path from to :
  0 <= from ->
  (forall k, from <= k < to -> JS.charCodeAt path k <> CHAR_FORWARD_SLASH) ->
  to <= Z.of_nat (length path) ->
  CHAR_FORWARD_SLASH ∉ JS.slice path from to.
Proof.
  intros Hfrom Hno Hto Hin. unfold JS.slice in Hin.
  apply list_elem_of_lookup in Hin as [j Hj].
  apply lookup_take_Some in Hj as [Hj Hlt].
  rewrite lookup_drop in Hj.
  apply (Hno (from + Z.of_nat j)); [lia|].
  unfold JS.charCodeAt.
  replace (Z.to_nat (from + Z.of_nat j)) with (Z.to_nat from + j)%nat by lia.
  apply nth_lookup_Some with (d := 0%N) in Hj. exact Hj.
Qed.

(** Whatever the path, the name [path.parse] returns holds no separator. *)
Lemma parse_name_no_slash p : is_file_name (name (parse p)).
Proof.
  unfold is_file_name, parse. destruct p as [|first rest].
  { cbn. apply not_elem_of_nil. }
  cbv zeta.
  set (path := first :: rest).
  set (isAbsolute := (first =? CHAR_FORWARD_SLASH)%N).
  set (start := if isAbsolute then 1 else 0).
  set (init := {| startDot := -1; startPart := 0; end_ := -1;
                  matchedSlash := true; preDotState := 0 |}).
  assert (0 <= start <= 1) as Hstart by (subst start; destruct isAbsolute; lia).
  assert (1 <= Z.of_nat (length path)) as Hlen by (subst path; simpl; lia).
  pose proof (scan_loop_scanned path start
                (Z.to_nat (Z.of_nat (length path) - start)) init
                ltac:(lia) ltac:(lia)) as Hscan.
  specialize (Hscan ltac:(split; [reflexivity|left; repeat split])).
  set (st := scan_loop path start _ init) in *.
  cbn [name].
  destruct Hscan as [Hend|(Hrange & Hlen' & Hno & Hdot)].
  { rewrite Hend, Z.eqb_refl. apply not_elem_of_nil. }
  assert ((end_ st =? -1) = false) as -> by (apply Z.eqb_neq; lia).
  assert ((if (startPart st =? 0) && isAbsolute then 1 else startPart st)
          = component_start start st) as ->.
  { unfold component_start. subst start.
    destruct (startPart st =? 0) eqn:E; destruct isAbsolute; cbn; try reflexivity.
    apply Z.eqb_eq in E. exact E. }
  match goal with |- _ ∉ (if ?b then _ else _) => destruct b eqn:Hwhole end.
  - apply slice_no_slash; [lia|exact Hno|exact Hlen'].
  - destruct Hdot as [Hdot|Hdot].
    { rewrite Hdot in Hwhole. discriminate Hwhole. }
    apply slice_no_slash; [lia| |lia].
    intros k Hk. apply Hno. lia.
Qed.

End ParseAnyPath.

Lemma sanitizeTitle_file_name title :
  is_file_name title -> is_file_name (sanitizeTitle title).
Proof.
  unfold is_file_name, sanitizeTitle, removeDisallowed. intros Htitle.
  rewrite replace_all_Plus_collapse, replace_all_Class_delete.
  assert (Forall (fun c => c <> Path.CHAR_FORWARD_SLASH) title) as Hall.
  { apply Forall_forall. intros c Hc ->. exact (Htitle Hc). }
  assert (Forall (fun c => c <> Path.CHAR_FORWARD_SLASH)
            (delete_all JS.is_hash_or_question title)) as Hdel.
  { clear Htitle. induction Hall as [|c s Hc _ IH]; simpl; [constructor|].
    destruct (JS.is_hash_or_question c); [exact IH|constructor; assumption]. }
  pose proof (collapse_runs_Forall (fun c => c <> Path.CHAR_FORWARD_SLASH)
                JS.is_whitespace (js "-") _
                ltac:(repeat constructor; discriminate)
                ltac:(eapply Forall_impl; [exact Hdel|]; intros c Hc _; exact Hc))
    as Hout.
  rewrite Forall_forall in Hout. intros Hin. exact (Hout _ Hin eq_refl).
Qed.

(** X5: whatever string it is given, a path with directories included, the
    dated transform returns a plain file name: it holds no [/], and it is
    neither [.] nor [..]. *)
Theorem convertToJekyllFileName_is_file_name now fileName :
  is_file_name (convertToJekyllFileName now fileName)
  /\ convertToJekyllFileName now fileName <> js "."
  /\ convertToJekyllFileName now fileName <> js "..".
Proof.
  split.
  - unfold is_file_name, convertToJekyllFileName.
    rewrite !elem_of_app. intros [H|[H|[H|H]]].
    + pose proof (isoDate_stamp_chars now) as Hstamp.
      rewrite Forall_forall in Hstamp.
      destruct (Hstamp _ H) as [Hd|[Hd|Hd]]; discriminate Hd.
    + apply list_elem_of_singleton in H. discriminate H.
    + exact (sanitizeTitle_file_name _ (parse_name_no_slash fileName) H).
    + repeat (apply elem_of_cons in H as [H|H]; [discriminate H|]).
      exact (not_elem_of_nil _ H).
  - assert (forall s, (3 <= length (s ++ js ".md"))%nat) as Hlen
      by (intros s; rewrite length_app; simpl; lia).
    unfold convertToJekyllFileName.
    rewrite !app_assoc. split; intros H;
      match type of H with ?l ++ _ = _ => specialize (Hlen l) end;
      rewrite H in Hlen; simpl in Hlen; lia.
Qed.

(** ** More on the folder list *)

(** X6: the add button only appends: the entries there keep their places
    (so the folder at index 0 stays the active one), at most one entry is
    added, never the empty string and never one that is there already;
    pressing it again with the same text changes nothing more. *)
Theorem onAddClick_appends newPath folders :
  folders `prefix_of` SettingTab.onAddClick newPath folders
  /\ (length (SettingTab.onAddClick newPath folders) <= S (length folders))%nat
  /\ (NoDup folders -> NoDup (SettingTab.onAddClick newPath folders))
  /\ ([] ∉ folders -> [] ∉ SettingTab.onAddClick newPath folders)
  /\ (newPath <> [] -> newPath ∈ SettingTab.onAddClick newPath folders)
  /\ SettingTab.onAddClick newPath (SettingTab.onAddClick newPath folders)
     = SettingTab.onAddClick newPath folders.
Proof.
  unfold SettingTab.onAddClick, SettingTab.includes.
  destruct (bool_decide (newPath = [])) eqn:Hempty;
    [|destruct (bool_decide (newPath ∈ folders)) eqn:Hin]; cbn [negb andb].
  - apply bool_decide_eq_true_1 in Hempty.
    split; [reflexivity|]. split; [lia|]. repeat split; tauto.
  - apply bool_decide_eq_true_1 in Hin.
    split; [reflexivity|]. split; [lia|]. repeat split; try tauto.
    rewrite (bool_decide_eq_true_2 _ Hin). reflexivity.
  - apply bool_decide_eq_false_1 in Hempty, Hin.
    assert (bool_decide (newPath ∈ folders ++ [newPath]) = true) as ->
      by (apply bool_decide_eq_true_2, elem_of_app; right; apply list_elem_of_singleton;
          reflexivity).
    cbn [negb].
    split; [exists [newPath]; reflexivity|].
    split; [rewrite length_app; simpl; lia|].
    split; [|split; [|split; [|reflexivity]]].
    + intros Hnodup. apply NoDup_app. split; [exact Hnodup|]. split.
      * intros x Hx Hx'. apply list_elem_of_singleton in Hx'. subst. tauto.
      * apply NoDup_singleton.
    + intros Hno Hin'. apply elem_of_app in Hin' as [H|H]; [tauto|].
      apply list_elem_of_singleton in H. congruence.
    + intros _. apply elem_of_app. right. apply list_elem_of_singleton. reflexivity.
Qed.

(** X7: the choice made in the delete dropdown does not reach the delete
    button: choosing an entry overwrites index 0, and the button then
    removes index 0, so the list loses its former first entry and keeps the
    chosen one. *)
Theorem delete_ignores_selection value folders :
  run_actions [SelectPath value; RemovePath] folders
  = run_actions [RemovePath] folders
  /\ (forall first rest,
        folders = first :: rest ->
        run_actions [SelectPath value; RemovePath] folders = rest).
Proof.
  unfold run_actions. cbn [foldl apply_action]. split.
  - destruct folders as [|first rest]; cbn [SettingTab.onDropdownChange];
      rewrite !onDeleteClick_cons; reflexivity.
  - intros first rest ->. cbn [SettingTab.onDropdownChange].
    apply onDeleteClick_cons.
Qed.

(** X8: choosing, in a dropdown, an entry that stands further down the
    list overwrites index 0 with it: the list keeps its length, the chosen
    entry now stands twice, and the former first entry is gone unless it
    stood elsewhere too. *)
Theorem onDropdownChange_overwrites value first rest :
  value ∈ rest ->
  length (SettingTab.onDropdownChange value (first :: rest)) = length (first :: rest)
  /\ SettingTab.onDropdownChange value (first :: rest) !! O = Some value
  /\ ~ NoDup (SettingTab.onDropdownChange value (first :: rest))
  /\ (first <> value -> first ∉ rest ->
      first ∉ SettingTab.onDropdownChange value (first :: rest)).
Proof.
  intros Hin. cbn [SettingTab.onDropdownChange]. repeat split.
  - intros Hnodup. apply NoDup_cons in Hnodup as [Hnot _]. exact (Hnot Hin).
  - intros Hne Hnot Hfirst. apply elem_of_cons in Hfirst as [H|H]; tauto.
Qed.

Lemma onDropdownChange_overwrites_witness :
  js "/b" ∈ [js "/b"]
  /\ ~ NoDup (SettingTab.onDropdownChange (js "/b") [js "/a"; js "/b"]).
Proof.
  assert (js "/b" ∈ [js "/b"]) as Hin by (apply list_elem_of_singleton; reflexivity).
  split; [exact Hin|].
  exact (proj1 (proj2 (proj2 (onDropdownChange_overwrites (js "/b") (js "/a")
                                [js "/b"] Hin)))).
Defined.

(** ** The text of a new path *)

Lemma trim_start_spec s :
  exists k, s = k ++ JS.trim_start s
            /\ match JS.trim_start s with
               | c :: _ => JS.is_whitespace c = false
               | [] => True
               end.
Proof.
  induction s as [|c s (k & Hk & Hhead)]; [exists []; split; [reflexivity|exact I]|].
  simpl. destruct (JS.is_whitespace c) eqn:Hc.
  - exists (c :: k). split; [simpl; f_equal; exact Hk|exact Hhead].
  - exists []. split; [reflexivity|exact Hc].
Qed.

Lemma trim_start_clean s :
  match s with c :: _ => JS.is_whitespace c = false | [] => True end ->
  JS.trim_start s = s.
Proof. destruct s as [|c s]; [reflexivity|]. simpl. intros ->. reflexivity. Qed.

Lemma ends_clean_rev s :
  ends_clean s = match rev s with
                 | c :: _ => negb (JS.is_whitespace c)
                 | [] => true
                 end.
Proof.
  induction s as [|c s IH]; [reflexivity|].
  destruct s as [|c' s]; [reflexivity|].
  change (ends_clean (c :: c' :: s)) with (ends_clean (c' :: s)). rewrite IH.
  change (rev (c :: c' :: s)) with (rev (c' :: s) ++ [c]).
  destruct (rev (c' :: s)) eqn:E; [|reflexivity].
  apply (f_equal (@length _)) in E. rewrite length_rev in E. discriminate E.
Qed.

(** [trim] leaves no white space at either end. *)
Lemma trim_ends v :
  match JS.trim v with c :: _ => JS.is_whitespace c = false | [] => True end
  /\ ends_clean (JS.trim v) = true.
Proof.
  unfold JS.trim.
  destruct (trim_start_spec v) as (k1 & _ & Hhead1).
  destruct (trim_start_spec (rev (JS.trim_start v))) as (k2 & Hk2 & Hhead2).
  set (u := JS.trim_start v) in *. set (w := JS.trim_start (rev u)) in *.
  split.
  - apply (f_equal (@rev _)) in Hk2. rewrite rev_involutive, rev_app_distr in Hk2.
    destruct (rev w) as [|c t]; [exact I|].
    rewrite Hk2 in Hhead1. exact Hhead1.
  - rewrite ends_clean_rev, rev_involutive.
    destruct w; [reflexivity|]. rewrite Hhead2. reflexivity.
Qed.

Lemma collapse_runs_head p rep c s :
  p c = false -> collapse_runs p rep (c :: s) = c :: collapse_runs p rep s.
Proof. intros H. simpl. rewrite H. reflexivity. Qed.

Lemma collapse_single_spaced s :
  ends_clean s = true ->
  single_spaced (collapse_runs JS.is_whitespace [JS.CHAR_SPACE] s) = true.
Proof.
  induction s as [|c s IH]; [reflexivity|]. intros Hend.
  destruct s as [|c' s].
  - simpl in *. apply negb_true_iff in Hend. rewrite Hend. simpl. rewrite Hend.
    reflexivity.
  - specialize (IH Hend).
    change (collapse_runs JS.is_whitespace [JS.CHAR_SPACE] (c :: c' :: s))
      with (if JS.is_whitespace c then
              if JS.is_whitespace c' then
                collapse_runs JS.is_whitespace [JS.CHAR_SPACE] (c' :: s)
              else [JS.CHAR_SPACE]
                   ++ collapse_runs JS.is_whitespace [JS.CHAR_SPACE] (c' :: s)
            else c :: collapse_runs JS.is_whitespace [JS.CHAR_SPACE] (c' :: s)).
    destruct (JS.is_whitespace c) eqn:Hc.
    + destruct (JS.is_whitespace c') eqn:Hc'; [exact IH|].
      rewrite (collapse_runs_head _ _ _ _ Hc') in *.
      change (single_spaced ([JS.CHAR_SPACE]
                ++ c' :: collapse_runs JS.is_whitespace [JS.CHAR_SPACE] s))
        with ((if JS.is_whitespace JS.CHAR_SPACE then
                 (JS.CHAR_SPACE =? JS.CHAR_SPACE)%N && negb (JS.is_whitespace c')
               else true)
              && single_spaced
                   (c' :: collapse_runs JS.is_whitespace [JS.CHAR_SPACE] s)).
      rewrite IH, Hc'. reflexivity.
    + cbn [single_spaced]. rewrite Hc. exact IH.
Qed.

Lemma single_spaced_ends_clean s : single_spaced s = true -> ends_clean s = true.
Proof.
  induction s as [|c s IH]; [reflexivity|]. cbn [single_spaced ends_clean].
  intros [Hc Hs]%andb_prop. destruct s as [|c' s]; [|exact (IH Hs)].
  destruct (JS.is_whitespace c); [|reflexivity].
  rewrite andb_false_r in Hc. discriminate Hc.
Qed.

Lemma single_spaced_collapse s :
  single_spaced s = true ->
  collapse_runs JS.is_whitespace [JS.CHAR_SPACE] s = s.
Proof.
  induction s as [|c s IH]; [reflexivity|]. cbn [single_spaced].
  intros [Hc Hs]%andb_prop. specialize (IH Hs).
  destruct (JS.is_whitespace c) eqn:Hws.
  - apply andb_prop in Hc as [Hspace Hnext]. apply N.eqb_eq in Hspace. subst c.
    destruct s as [|c' s]; [discriminate Hnext|].
    apply negb_true_iff in Hnext.
    change (collapse_runs JS.is_whitespace [JS.CHAR_SPACE] (JS.CHAR_SPACE :: c' :: s))
      with (if JS.is_whitespace JS.CHAR_SPACE then
              if JS.is_whitespace c' then
                collapse_runs JS.is_whitespace [JS.CHAR_SPACE] (c' :: s)
              else [JS.CHAR_SPACE]
                   ++ collapse_runs JS.is_whitespace [JS.CHAR_SPACE] (c' :: s)
            else JS.CHAR_SPACE
                 :: collapse_runs JS.is_whitespace [JS.CHAR_SPACE] (c' :: s)).
    rewrite Hws, Hnext, IH. reflexivity.
  - rewrite (collapse_runs_head _ _ _ _ Hws), IH. reflexivity.
Qed.

Lemma normalized_fixpoint s :
  is_normalized_path s = true -> SettingTab.onNewPathChange s = s.
Proof.
  unfold is_normalized_path. intros [Hhead Hs]%andb_prop.
  unfold SettingTab.onNewPathChange. rewrite replace_all_Plus_collapse.
  assert (JS.trim s = s) as ->; [|apply single_spaced_collapse, Hs].
  unfold JS.trim.
  rewrite (trim_start_clean s)
    by (destruct s; [exact I|apply negb_true_iff, Hhead]).
  rewrite trim_start_clean; [apply rev_involutive|].
  pose proof (single_spaced_ends_clean s Hs) as Hend.
  rewrite ends_clean_rev in Hend.
  destruct (rev s); [exact I|apply negb_true_iff, Hend].
Qed.

Lemma onNewPathChange_normalized value :
  is_normalized_path (SettingTab.onNewPathChange value) = true.
Proof.
  unfold SettingTab.onNewPathChange. rewrite replace_all_Plus_collapse.
  destruct (trim_ends value) as [Hhead Hend].
  unfold is_normalized_path. apply andb_true_intro. split.
  - destruct (JS.trim value) as [|c t]; [reflexivity|].
    rewrite (collapse_runs_head _ _ _ _ Hhead), Hhead. reflexivity.
  - apply collapse_single_spaced, Hend.
Qed.

(** X9: the text of a new path is normalized: it neither starts nor ends
    with white space and holds white space only as single spaces between
    other characters; a text of that form is kept as typed, so normalizing
    twice is normalizing once. *)
Theorem onNewPathChange_normal_form value :
  is_normalized_path (SettingTab.onNewPathChange value) = true
  /\ ends_clean (SettingTab.onNewPathChange value) = true
  /\ (is_normalized_path value = true -> SettingTab.onNewPathChange value = value)
  /\ SettingTab.onNewPathChange (SettingTab.onNewPathChange value)
     = SettingTab.onNewPathChange value.
Proof.
  pose proof (onNewPathChange_normalized value) as Hnorm.
  split; [exact Hnorm|]. split; [|split].
  - apply single_spaced_ends_clean.
    unfold is_normalized_path in Hnorm. apply andb_prop in Hnorm. tauto.
  - apply normalized_fixpoint.
  - apply normalized_fixpoint, Hnorm.
Qed.

(** A text of white space only gives the empty string, which the add
    button does not add. *)
Lemma onNewPathChange_blank value :
  forallb JS.is_whitespace value = true -> SettingTab.onNewPathChange value = [].
Proof.
  intros Hblank. unfold SettingTab.onNewPathChange, JS.trim.
  assert (JS.trim_start value = []) as ->; [|reflexivity].
  induction value as [|c value IH]; [reflexivity|].
  simpl in *. apply andb_prop in Hblank as [-> Hrest]. exact (IH Hrest).
Qed.

(** ** Settings across a restart, and the lists the tab can reach *)

(** X10: what [saveSettings] stores, [loadSettings] gives back unchanged,
    folder list and both flags; so a list that was emptied is empty again
    after a restart: the default entry is not put back. *)
Theorem loadSettings_saveSettings settings :
  loadSettings (saveSettings settings) = settings
  /\ (projectFolders settings = [] ->
      projectFolders (loadSettings (saveSettings settings)) = []).
Proof.
  assert (loadSettings (saveSettings settings) = settings) as H
    by (destruct settings; reflexivity).
  split; [exact H|]. rewrite H. tauto.
Qed.

(** X11: every entry of a folder list that the settings tab reaches from
    the default list is a normalized path text; the add button keeps that
    true of any list, and so do the delete button and the dropdowns. *)
Theorem reachable_entries_normalized from folders :
  Forall (fun x => is_normalized_path x = true) from ->
  reachable from folders ->
  Forall (fun x => is_normalized_path x = true) folders.
Proof.
  intros Hfrom. induction 1 as [|folders typed _ IH|folders _ IH
                                |folders value _ IH Hvalue].
  - exact Hfrom.
  - cbn [apply_action]. unfold SettingTab.onAddClick.
    destruct (_ && _); [|exact IH].
    apply Forall_app. split; [exact IH|].
    constructor; [apply onNewPathChange_normalized|constructor].
  - cbn [apply_action]. destruct folders as [|first rest]; [exact IH|].
    rewrite onDeleteClick_cons. apply Forall_cons in IH as [_ IH]. exact IH.
  - cbn [apply_action]. rewrite Forall_forall in IH.
    destruct folders as [|first rest]; cbn [SettingTab.onDropdownChange].
    + constructor; [apply IH, Hvalue|constructor].
    + apply Forall_forall. intros x Hx. apply elem_of_cons in Hx as [->|Hx].
      * apply IH, Hvalue.
      * apply IH. right. exact Hx.
Qed.

Lemma reachable_entries_normalized_witness :
  Forall (fun x => is_normalized_path x = true)
    (apply_action (SelectPath (js "/my blog"))
       (apply_action (AddPath (js "  /my   blog ")) (projectFolders DEFAULT_SETTINGS))).
Proof.
  apply (reachable_entries_normalized (projectFolders DEFAULT_SETTINGS)).
  - repeat constructor.
  - apply reach_select; [apply reach_add, reach_start|].
    vm_compute. apply list_elem_of_In. right. left. reflexivity.
Defined.

(** ** More on the push and the commands *)

Section Commands.
Variable path_resolve : jsstring -> jsstring -> jsstring.

(** The four ways a push can go. *)
Lemma pushFile_cases settings file targetPath w :
  (exists e,
     vault w file = inl e
     /\ pushFile path_resolve settings file targetPath w
        = (inr tt, (w, [ConsoleLog targetPath; VaultRead file;
                        Notice (PUSH_FAILURE_PREFIX ++ message e)])))
  \/ (exists content,
        vault w file = inr content
        /\ push_target path_resolve settings file targetPath (clock w) = None
        /\ pushFile path_resolve settings file targetPath w
           = (inr tt, (w, [ConsoleLog targetPath; VaultRead file;
                           Notice (PUSH_FAILURE_PREFIX
                                     ++ message ERR_INVALID_ARG_TYPE)])))
  \/ (exists content p e,
        vault w file = inr content
        /\ push_target path_resolve settings file targetPath (clock w) = Some p
        /\ write_fault w p = Some e
        /\ pushFile path_resolve settings file targetPath w
           = (inr tt, (w, [ConsoleLog targetPath; VaultRead file;
                           FileWrite p content;
                           Notice (PUSH_FAILURE_PREFIX ++ message e)])))
  \/ (exists content p,
        vault w file = inr content
        /\ push_target path_resolve settings file targetPath (clock w) = Some p
        /\ write_fault w p = None
        /\ pushFile path_resolve settings file targetPath w
           = (inr tt, (written w p content,
                       [ConsoleLog targetPath; VaultRead file; FileWrite p content;
                        Notice (PUSH_SUCCESS_PREFIX ++ p)]))).
Proof.
  destruct (vault w file) as [e|content] eqn:Hread.
  { left. exists e. split; [reflexivity|]. apply pushFile_read_fails, Hread. }
  destruct (push_target path_resolve settings file targetPath (clock w))
    as [p|] eqn:Htarget.
  2: { right; left. exists content. repeat split.
       apply (pushFile_no_folder _ _ _ _ _ _ Hread Htarget). }
  destruct (write_fault w p) as [e|] eqn:Hwrite.
  - right; right; left. exists content, p, e. repeat split; try assumption.
    apply (pushFile_write_fails _ _ _ _ _ _ _ _ Hread Htarget Hwrite).
  - right; right; right. exists content, p. repeat split; try assumption.
    apply (pushFile_succeeds _ _ _ _ _ _ _ Hread Htarget Hwrite).
Qed.

Lemma pushFile_outcome settings file targetPath w :
  outcome (pushFile path_resolve settings file targetPath w) = inr tt.
Proof.
  destruct (pushFile_cases settings file targetPath w)
    as [(? & _ & ->)|[(? & _ & _ & ->)|[(? & ? & ? & _ & _ & _ & ->)
                                        |(? & ? & _ & _ & _ & ->)]]];
    reflexivity.
Qed.

(** The world a push leaves: the one it found, or that one with the text
    read from the vault written at the target. *)
Lemma pushFile_world_after settings file targetPath w :
  world_after (pushFile path_resolve settings file targetPath w) = w
  \/ exists p content,
       push_target path_resolve settings file targetPath (clock w) = Some p
       /\ vault w file = inr content
       /\ world_after (pushFile path_resolve settings file targetPath w)
          = written w p content.
Proof.
  destruct (pushFile_cases settings file targetPath w)
    as [(? & _ & ->)|[(? & _ & _ & ->)|[(? & ? & ? & _ & _ & _ & ->)
                                        |(content & p & Hread & Htarget & _ & ->)]]];
    [left; reflexivity..|].
  right. exists p, content. repeat split; assumption.
Qed.

(** The validator's answer in terms of the folder at index 0. *)
Lemma isProjectPathValid_cases settings w :
  (exists folder,
     projectFolders settings !! O = Some folder
     /\ path_exists w folder = true
     /\ isProjectPathValid settings w = (inr true, (w, [])))
  \/ ((forall folder, projectFolders settings !! O = Some folder ->
                      path_exists w folder = false)
      /\ isProjectPathValid settings w
         = (inr false, (w, [ErrorModalOpen MODAL_MESSAGE]))).
Proof.
  destruct (projectFolders settings) as [|folder rest] eqn:Hfolders.
  - right. split; [discriminate|]. apply isProjectPathValid_no_folder, Hfolders.
  - destruct (path_exists w folder) eqn:Hexists.
    + left. exists folder. repeat split; [assumption|].
      apply (isProjectPathValid_found _ _ _ _ Hfolders Hexists).
    + right. split; [intros f [= <-]; exact Hexists|].
      apply (isProjectPathValid_missing _ _ _ _ Hfolders Hexists).
Qed.

(** X12: no command throws: when the folder list is empty the validator
    stops the command before [path.resolve] is given [undefined], and
    [pushFile] catches what the read and the write throw. *)
Theorem commands_never_throw settings view_file file w :
  outcome (push_md_command path_resolve settings view_file w) = inr tt
  /\ outcome (file_menu_push path_resolve settings file w) = inr tt
  /\ outcome (validate_path_command settings w) = inr tt.
Proof.
  destruct (isProjectPathValid_cases settings w)
    as [(folder & Hfolder & Hexists & Hvalid)|(Hmissing & Hinvalid)].
  - destruct (projectFolders settings) as [|folder' rest] eqn:Hfolders;
      [discriminate|]. injection Hfolder as ->.
    split; [|split].
    + destruct view_file as [f|].
      * rewrite (push_md_command_valid _ _ _ _ _ _ Hfolders Hexists).
        apply pushFile_outcome.
      * unfold push_md_command, mbind, M_bind, bind. rewrite Hvalid. reflexivity.
    + rewrite (file_menu_push_valid _ _ _ _ _ _ Hfolders Hexists).
      apply pushFile_outcome.
    + unfold validate_path_command, mbind, M_bind, bind. rewrite Hvalid. reflexivity.
  - rewrite (push_md_command_invalid _ _ _ _ Hmissing),
      (file_menu_push_invalid _ _ _ _ Hmissing).
    repeat split.
    unfold validate_path_command, mbind, M_bind, bind. rewrite Hinvalid. reflexivity.
Qed.


(** X14: a push never makes the destination invalid: if the validator
    accepts the settings before a push, it accepts them after it. *)
Theorem isProjectPathValid_after_push settings pushed file targetPath w :
  outcome (isProjectPathValid settings w) = inr true ->
  outcome (isProjectPathValid settings
             (world_after (pushFile path_resolve pushed file targetPath w)))
  = inr true.
Proof.
  intros Hvalid.
  destruct (isProjectPathValid_cases settings w)
    as [(folder & Hfolder & Hexists & _)|(_ & Hinvalid)].
  2: { rewrite Hinvalid in Hvalid. discriminate Hvalid. }
  destruct (projectFolders settings) as [|folder' rest] eqn:Hfolders;
    [discriminate|]. injection Hfolder as ->.
  rewrite (isProjectPathValid_found _ _ folder rest Hfolders); [reflexivity|].
  destruct (pushFile_world_after pushed file targetPath w)
    as [->|(p & content & _ & _ & ->)]; [exact Hexists|].
  unfold path_exists in *. cbn [written files directories].
  apply orb_true_iff in Hexists as [H|H]; apply orb_true_iff; [left|right; exact H].
  apply bool_decide_eq_true_1 in H. apply bool_decide_eq_true_2.
  destruct (decide (p = folder)) as [->|Hne].
  - rewrite lookup_insert_eq. eauto.
  - rewrite lookup_insert_ne by exact Hne. exact H.
Qed.

End Commands.

Lemma isProjectPathValid_after_push_witness :
  outcome (isProjectPathValid (settings_with [js "/out"] false) example_world)
  = inr true
  /\ outcome (isProjectPathValid (settings_with [js "/out"] false)
                (world_after (pushFile join_path (settings_with [js "/out"] true)
                                my_note (js "/out/My Note.md") example_world)))
     = inr true.
Proof.
  assert (outcome (isProjectPathValid (settings_with [js "/out"] false)
                     example_world) = inr true) as Hvalid
    by (vm_compute; reflexivity).
  split; [exact Hvalid|].
  exact (isProjectPathValid_after_push join_path (settings_with [js "/out"] false)
           (settings_with [js "/out"] true) my_note (js "/out/My Note.md")
           example_world Hvalid).
Defined.

Section Commands2.
Variable path_resolve : jsstring -> jsstring -> jsstring.

(** X15: the command [validate-path] leaves the world as it is, reads and
    writes nothing, and shows one thing: the notice with the folder at
    index 0 when that folder exists, the error modal otherwise. *)
Theorem validate_path_command_reports settings w :
  world_after (validate_path_command settings w) = w
  /\ ((exists folder,
         projectFolders settings !! O = Some folder
         /\ path_exists w folder = true
         /\ events (validate_path_command settings w)
            = [Notice (VALID_PATH_PREFIX ++ folder)])
      \/ ((forall folder, projectFolders settings !! O = Some folder ->
                          path_exists w folder = false)
          /\ events (validate_path_command settings w)
             = [ErrorModalOpen MODAL_MESSAGE])).
Proof.
  unfold validate_path_command, mbind, M_bind, bind.
  destruct (projectFolders settings) as [|folder rest] eqn:Hfolders.
  - rewrite (isProjectPathValid_no_folder _ _ Hfolders).
    split; [reflexivity|]. right. split; [discriminate|reflexivity].
  - destruct (path_exists w folder) eqn:Hexists.
    + rewrite (isProjectPathValid_found _ _ _ _ Hfolders Hexists).
      split; [reflexivity|]. left. exists folder. repeat split. exact Hexists.
    + rewrite (isProjectPathValid_missing _ _ _ _ Hfolders Hexists).
      split; [reflexivity|]. right. split; [|reflexivity].
      intros f [= <-]. exact Hexists.
Qed.

(** X16: only the folder at index 0 counts: two settings with the same
    first folder and the same dated flag make every command behave alike. *)
Theorem commands_use_first_folder_only settings1 settings2 view_file file w :
  projectFolders settings1 !! O = projectFolders settings2 !! O ->
  convertToJekyllFormat settings1 = convertToJekyllFormat settings2 ->
  push_md_command path_resolve settings1 view_file w
  = push_md_command path_resolve settings2 view_file w
  /\ file_menu_push path_resolve settings1 file w
     = file_menu_push path_resolve settings2 file w
  /\ validate_path_command settings1 w = validate_path_command settings2 w.
Proof.
  intros Hfolder Hflag.
  unfold push_md_command, file_menu_push, validate_path_command.
  unfold pushFile, isProjectPathValid, resolve_in_folder.
  rewrite Hfolder, Hflag. repeat split.
Qed.

End Commands2.

Lemma commands_use_first_folder_only_witness :
  push_md_command join_path (settings_with [js "/out"; js "/elsewhere"] true)
    (Some my_note) example_world
  = push_md_command join_path (settings_with [js "/out"] true)
      (Some my_note) example_world.
Proof.
  exact (proj1 (commands_use_first_folder_only join_path
                  (settings_with [js "/out"; js "/elsewhere"] true)
                  (settings_with [js "/out"] true) (Some my_note) my_note
                  example_world eq_refl eq_refl)).
Defined.

Section Dated.
Variable path_resolve : jsstring -> jsstring -> jsstring.

Lemma push_target_dated settings file targetPath now :
  convertToJekyllFormat settings = true ->
  push_target path_resolve settings file targetPath now
  = (fun folder => path_resolve folder (convertToJekyllFileName now (name file)))
      <$> projectFolders settings !! O.
Proof.
  intros Hmode. unfold push_target. rewrite Hmode.
  destruct (projectFolders settings !! O); reflexivity.
Qed.

(** X17: with dated mode on, whatever a command writes goes to the
    converted name, for the clock's reading, resolved in the first folder;
    the path the caller resolved from the plain name reaches [console.log]
    only: the world left, the notices and the writes do not depend on it. *)
Theorem push_dates_name_when_dated settings file w :
  convertToJekyllFormat settings = true ->
  (forall p data,
     (p, data) ∈ file_writes (events (push_md_command path_resolve settings
                                        (Some file) w))
     \/ (p, data) ∈ file_writes (events (file_menu_push path_resolve settings
                                           file w)) ->
     exists folder,
       projectFolders settings !! O = Some folder
       /\ p = path_resolve folder (convertToJekyllFileName (clock w) (name file)))
  /\ (forall targetPath1 targetPath2,
        world_after (pushFile path_resolve settings file targetPath1 w)
        = world_after (pushFile path_resolve settings file targetPath2 w)
        /\ notices (events (pushFile path_resolve settings file targetPath1 w))
           = notices (events (pushFile path_resolve settings file targetPath2 w))
        /\ file_writes (events (pushFile path_resolve settings file targetPath1 w))
           = file_writes (events (pushFile path_resolve settings file targetPath2 w)))
  /\ (forall folder content,
        projectFolders settings !! O = Some folder ->
        path_exists w folder = true ->
        vault w file = inr content ->
        write_fault w (path_resolve folder
                         (convertToJekyllFileName (clock w) (name file))) = None ->
        events (push_md_command path_resolve settings (Some file) w)
        = [ConsoleLog (path_resolve folder (name file)); VaultRead file;
           FileWrite (path_resolve folder
                        (convertToJekyllFileName (clock w) (name file))) content;
           Notice (PUSH_SUCCESS_PREFIX
                     ++ path_resolve folder
                          (convertToJekyllFileName (clock w) (name file)))]
        /\ files (world_after (push_md_command path_resolve settings (Some file) w))
           !! path_resolve folder (convertToJekyllFileName (clock w) (name file))
           = Some content).
Proof.
  intros Hmode. split; [|split].
  - intros p data Hwritten.
    destruct (projectFolders settings) as [|folder rest] eqn:Hfolders.
    { rewrite push_md_command_invalid, file_menu_push_invalid in Hwritten
        by (intros folder; rewrite Hfolders; discriminate).
      destruct Hwritten as [H|H]; inversion H. }
    destruct (path_exists w folder) eqn:Hexists.
    + rewrite (push_md_command_valid _ _ _ _ _ _ Hfolders Hexists),
        (file_menu_push_valid _ _ _ _ _ _ Hfolders Hexists) in Hwritten.
      assert ((p, data) ∈ file_writes
                (events (pushFile path_resolve settings file
                           (path_resolve folder (name file)) w))) as H
        by (destruct Hwritten; assumption).
      apply pushFile_writes in H as [H _].
      rewrite (push_target_dated _ _ _ _ Hmode), Hfolders in H.
      injection H as <-. exists folder. split; reflexivity.
    + rewrite push_md_command_invalid, file_menu_push_invalid in Hwritten
        by (intros f; rewrite Hfolders; intros [= <-]; exact Hexists).
      destruct Hwritten as [H|H]; inversion H.
  - intros targetPath1 targetPath2. run_M. rewrite Hmode.
    destruct (vault w file) as [e|content]; [repeat split|].
    destruct (projectFolders settings !! O) as [folder|]; [|repeat split].
    cbn. destruct (write_fault w _); repeat split.
  - intros folder content Hfolder Hexists Hread Hwrite.
    destruct (projectFolders settings) as [|folder' rest] eqn:Hfolders;
      [discriminate|]. injection Hfolder as ->.
    rewrite (push_md_command_valid _ _ _ _ _ _ Hfolders Hexists).
    rewrite (pushFile_succeeds path_resolve settings file _ w content
               (path_resolve folder (convertToJekyllFileName (clock w) (name file)))
               Hread); [|rewrite (push_target_dated _ _ _ _ Hmode), Hfolders;
                         reflexivity|exact Hwrite].
    split; [reflexivity|]. apply lookup_insert_eq.
Qed.

End Dated.

(** The specification's end-to-end example, dated mode on: on 2024-03-01
    [My Note.md] lands in [/out/2024-03-01-My-Note.md]. *)
Lemma push_dates_name_when_dated_witness :
  convertToJekyllFormat (settings_with [js "/out"] true) = true
  /\ files (world_after (push_md_command join_path
                           (settings_with [js "/out"] true) (Some my_note)
                           example_world))
     !! js "/out/2024-03-01-My-Note.md" = Some (js "hello").
Proof.
  split; [reflexivity|].
  exact (proj2 (proj2 (proj2 (push_dates_name_when_dated join_path
                                (settings_with [js "/out"] true) my_note
                                example_world eq_refl))
                  (js "/out") (js "hello") eq_refl out_exists eq_refl eq_refl)).
Defined.
